(** * Row-level security, membership and direct-message bookkeeping of the
      Slack clone, embedded from the SQL migrations and the React hooks.

    The database is a record of tables, a table is the list of its rows in
    physical (insertion) order, and every SQL expression is evaluated in
    SQL's three-valued logic: a nullable column is an [option], a truth
    value is an [option bool] whose [None] is NULL.  A statement returns
    either the new database or the SQL error that aborts it. *)

From Stdlib Require Import List NArith ZArith Bool Lia String.
From Stdlib Require Import Permutation Sorted.
Import ListNotations.
Local Open Scope bool_scope.

(* ================================================================== *)
(** ** SQL values and three-valued logic                                *)
(* ================================================================== *)

(** A uuid is a 128-bit value; PostgreSQL orders uuids bytewise, which is
    the order of the number they spell. *)
Definition uuid := N.
Bind Scope N_scope with uuid.

(** timestamptz, in microseconds since the epoch. *)
Definition timestamptz := Z.
Bind Scope Z_scope with timestamptz.

Definition sqlbool := option bool.

Definition sql_and (a b : sqlbool) : sqlbool :=
  match a, b with
  | Some false, _ => Some false
  | _, Some false => Some false
  | Some true, Some true => Some true
  | _, _ => None
  end.

Definition sql_or (a b : sqlbool) : sqlbool :=
  match a, b with
  | Some true, _ => Some true
  | _, Some true => Some true
  | Some false, Some false => Some false
  | _, _ => None
  end.

Definition sql_not (a : sqlbool) : sqlbool := option_map negb a.

(** [x IS NULL] and [x IS NOT NULL] are never NULL themselves. *)
Definition is_null {A : Type} (x : option A) : sqlbool :=
  match x with None => Some true | Some _ => Some false end.

Definition is_not_null {A : Type} (x : option A) : sqlbool :=
  match x with None => Some false | Some _ => Some true end.

(** [x = y] and [x != y] on uuids: NULL as soon as one side is NULL. *)
Definition sql_eq (x y : option uuid) : sqlbool :=
  match x, y with
  | Some a, Some b => Some (N.eqb a b)
  | _, _ => None
  end.

Definition sql_neq (x y : option uuid) : sqlbool := sql_not (sql_eq x y).

Definition sql_eq_bool (x y : option bool) : sqlbool :=
  match x, y with
  | Some a, Some b => Some (Bool.eqb a b)
  | _, _ => None
  end.

(** A row passes a WHERE clause, a USING clause or a WITH CHECK clause when
    the expression is true; NULL counts as a refusal. *)
Definition holds (b : sqlbool) : bool :=
  match b with Some true => true | _ => false end.

(** A row passes a CHECK constraint unless the expression is false; NULL
    counts as a pass. *)
Definition check_passes (b : sqlbool) : bool :=
  match b with Some false => false | _ => true end.

(** [LEAST] and [GREATEST] ignore NULL arguments and are NULL only when all
    of them are. *)
Definition LEAST (x y : option uuid) : option uuid :=
  match x, y with
  | Some a, Some b => Some (N.min a b)
  | Some a, None => Some a
  | None, _ => y
  end.

Definition GREATEST (x y : option uuid) : option uuid :=
  match x, y with
  | Some a, Some b => Some (N.max a b)
  | Some a, None => Some a
  | None, _ => y
  end.

(** Errors that abort a statement. *)
Inductive sql_error : Type :=
| check_violation (constraint : string)
| unique_violation (constraint : string)
| rls_violation (table : string).

Inductive result (A : Type) : Type :=
| Ok (a : A)
| Error (e : sql_error).
Arguments Ok {A} a.
Arguments Error {A} e.

Definition bind {A B : Type} (r : result A) (k : A -> result B) : result B :=
  match r with
  | Ok a => k a
  | Error e => Error e
  end.

Notation "x <- r ;; k" := (bind r (fun x => k))
  (at level 61, r at next level, right associativity).

(** A statement is atomic: when it fails, the store it ran on stays. *)
Definition commit {A : Type} (before : A) (r : result A) : A :=
  match r with
  | Ok after => after
  | Error _ => before
  end.

(* ================================================================== *)
(** ** Tables (initial schema migration)                                *)
(* ================================================================== *)

Module Channels.
Record row : Type := {
  id : uuid;
  name : string;
  is_private : option bool;
  created_by : option uuid
}.
End Channels.

Inductive member_role : Type := admin | member.

Module ChannelMembers.
Record row : Type := {
  channel_id : option uuid;
  user_id : option uuid;
  role : option member_role
}.
End ChannelMembers.

Module Messages.
Record row : Type := {
  id : uuid;
  content : string;
  user_id : option uuid;
  channel_id : option uuid;
  recipient_id : option uuid;
  created_at : timestamptz
}.
End Messages.

Module DmParticipants.
Record row : Type := {
  user1_id : option uuid;
  user2_id : option uuid;
  last_message_at : timestamptz
}.
End DmParticipants.

Record database : Type := {
  channels : list Channels.row;
  channel_members : list ChannelMembers.row;
  messages : list Messages.row;
  direct_message_participants : list DmParticipants.row
}.

Definition empty_database : database :=
  {| channels := []; channel_members := []; messages := [];
     direct_message_participants := [] |}.

(** Table constraints. *)

(** CONSTRAINT check_message_target CHECK (
      (channel_id IS NOT NULL AND recipient_id IS NULL) OR
      (channel_id IS NULL AND recipient_id IS NOT NULL)) *)
Definition check_message_target (m : Messages.row) : sqlbool :=
  sql_or
    (sql_and (is_not_null (Messages.channel_id m))
             (is_null (Messages.recipient_id m)))
    (sql_and (is_null (Messages.channel_id m))
             (is_not_null (Messages.recipient_id m))).

(** CONSTRAINT check_different_users CHECK (user1_id != user2_id) *)
Definition check_different_users (r : DmParticipants.row) : sqlbool :=
  sql_neq (DmParticipants.user1_id r) (DmParticipants.user2_id r).

(** Two rows collide on UNIQUE(user1_id, user2_id) when both columns are
    equal; a NULL never collides. *)
Definition dm_conflict (r x : DmParticipants.row) : bool :=
  holds (sql_and
           (sql_eq (DmParticipants.user1_id x) (DmParticipants.user1_id r))
           (sql_eq (DmParticipants.user2_id x) (DmParticipants.user2_id r))).

(** Same for UNIQUE(channel_id, user_id) of channel_members. *)
Definition member_conflict (r x : ChannelMembers.row) : bool :=
  holds (sql_and
           (sql_eq (ChannelMembers.channel_id x) (ChannelMembers.channel_id r))
           (sql_eq (ChannelMembers.user_id x) (ChannelMembers.user_id r))).

(* ================================================================== *)
(** ** Access rules                                                     *)
(* ================================================================== *)

(** public.is_channel_member(channel_id_to_check, user_id_to_check): a
    SECURITY DEFINER function, so it reads channel_members unfiltered. *)
Definition is_channel_member (db : database)
    (channel_id_to_check user_id_to_check : option uuid) : bool :=
  existsb
    (fun cm =>
       holds (sql_and
                (sql_eq (ChannelMembers.channel_id cm) channel_id_to_check)
                (sql_eq (ChannelMembers.user_id cm) user_id_to_check)))
    (channel_members db).

(** public.can_access_channel(p_channel_id, p_user_id) of the recursion
    fix.  [SELECT is_private INTO v_is_private] leaves the variable NULL
    when no channel has that id. *)
Definition select_is_private (db : database) (p_channel_id : option uuid)
  : option bool :=
  match find (fun c => holds (sql_eq (Some (Channels.id c)) p_channel_id))
             (channels db) with
  | Some c => Channels.is_private c
  | None => None
  end.

Definition can_access_channel (db : database)
    (p_channel_id p_user_id : option uuid) : bool :=
  let v_is_private := select_is_private db p_channel_id in
  if holds (sql_eq_bool v_is_private (Some false)) then true
  else is_channel_member db p_channel_id p_user_id.

(** The policies that the definitive RLS migration leaves in force, each
    as the expression of its USING / WITH CHECK clause; [uid] is
    [auth.uid()]. *)
Module Definitive.

(** "Users can view public channels and private channels they are
    members of" ON channels FOR SELECT *)
Definition channels_select (db : database) (uid : option uuid)
    (c : Channels.row) : sqlbool :=
  sql_or (sql_eq_bool (Channels.is_private c) (Some false))
         (Some (is_channel_member db (Some (Channels.id c)) uid)).

(** "Users can view messages in their channels and DMs"
    ON messages FOR SELECT *)
Definition messages_select (db : database) (uid : option uuid)
    (m : Messages.row) : sqlbool :=
  sql_or
    (sql_and (is_not_null (Messages.channel_id m))
             (Some (is_channel_member db (Messages.channel_id m) uid)))
    (sql_and (is_not_null (Messages.recipient_id m))
             (sql_or (sql_eq uid (Messages.user_id m))
                     (sql_eq uid (Messages.recipient_id m)))).

(** "Users can send messages in their channels and DMs"
    ON messages FOR INSERT WITH CHECK *)
Definition messages_insert (db : database) (uid : option uuid)
    (m : Messages.row) : sqlbool :=
  sql_or
    (sql_and (is_not_null (Messages.channel_id m))
             (Some (is_channel_member db (Messages.channel_id m) uid)))
    (sql_and (is_not_null (Messages.recipient_id m))
             (sql_or (sql_eq uid (Messages.user_id m))
                     (sql_eq uid (Messages.recipient_id m)))).

(** "Users can view and manage their own DM conversations"
    ON direct_message_participants FOR ALL, USING and WITH CHECK *)
Definition dm_participants_all (uid : option uuid)
    (r : DmParticipants.row) : sqlbool :=
  sql_or (sql_eq uid (DmParticipants.user1_id r))
         (sql_eq uid (DmParticipants.user2_id r)).

End Definitive.

(** The expressions of the initial schema's policies on messages, kept to
    set beside the definitive ones.  Their EXISTS subquery is taken as a
    plain read of channel_members.  In PostgreSQL that read goes through
    the SELECT policy of channel_members, which in the initial schema reads
    channel_members again, and a statement that gets there stops with an
    infinite-recursion error; the later migrations put is_channel_member,
    a SECURITY DEFINER function, in the place of the subquery. *)
Module InitialSchema.

(** "Users can view messages in channels they're members of"
    ON messages FOR SELECT *)
Definition messages_select (db : database) (uid : option uuid)
    (m : Messages.row) : sqlbool :=
  sql_or
    (sql_and (is_not_null (Messages.channel_id m))
             (Some (is_channel_member db (Messages.channel_id m) uid)))
    (sql_and (is_not_null (Messages.recipient_id m))
             (sql_or (sql_eq (Messages.user_id m) uid)
                     (sql_eq (Messages.recipient_id m) uid))).

(** "Users can send messages to channels they're members of"
    ON messages FOR INSERT WITH CHECK *)
Definition messages_insert (db : database) (uid : option uuid)
    (m : Messages.row) : sqlbool :=
  sql_and
    (sql_eq (Messages.user_id m) uid)
    (sql_or
       (sql_and (is_not_null (Messages.channel_id m))
                (Some (is_channel_member db (Messages.channel_id m) uid)))
       (is_not_null (Messages.recipient_id m))).

End InitialSchema.

(** The access kernel's predicates, for an authenticated user [u]. *)
Definition CanViewChannel (db : database) (u : uuid) (c : Channels.row) : bool :=
  holds (Definitive.channels_select db (Some u) c).

Definition CanViewMessage (db : database) (u : uuid) (m : Messages.row) : bool :=
  holds (Definitive.messages_select db (Some u) m).

Definition CanPostMessage (db : database) (u : uuid) (m : Messages.row) : bool :=
  holds (Definitive.messages_insert db (Some u) m).

(* ================================================================== *)
(** ** direct_message_participants: the upsert and the trigger          *)
(* ================================================================== *)

Definition set_last_message_at (ts : timestamptz) (r : DmParticipants.row)
  : DmParticipants.row :=
  {| DmParticipants.user1_id := DmParticipants.user1_id r;
     DmParticipants.user2_id := DmParticipants.user2_id r;
     DmParticipants.last_message_at := ts |}.

(** INSERT INTO direct_message_participants (user1_id, user2_id,
    last_message_at) VALUES (u1, u2, ts)
    ON CONFLICT (user1_id, user2_id) DO UPDATE SET last_message_at = ts.
    The CHECK constraint is evaluated on the proposed row before the
    conflict is looked for. *)
Definition dm_upsert (dms : list DmParticipants.row)
    (u1 u2 : option uuid) (ts : timestamptz)
  : result (list DmParticipants.row) :=
  let r := {| DmParticipants.user1_id := u1;
              DmParticipants.user2_id := u2;
              DmParticipants.last_message_at := ts |} in
  if check_passes (check_different_users r) then
    if existsb (dm_conflict r) dms then
      Ok (map (fun x => if dm_conflict r x then set_last_message_at ts x else x)
              dms)
    else Ok (dms ++ [r])
  else Error (check_violation "check_different_users").

(** The key the trigger computes for a message between [x] and [y]. *)
Definition canonicalKey (x y : option uuid) : option uuid * option uuid :=
  (LEAST x y, GREATEST x y).

(** What the trigger does for a direct message between [a] and [b] stamped
    [ts]. *)
Definition RecordDirectMessage (dms : list DmParticipants.row)
    (a b : uuid) (ts : timestamptz) : result (list DmParticipants.row) :=
  dm_upsert dms (LEAST (Some a) (Some b)) (GREATEST (Some a) (Some b)) ts.

(** update_dm_participants(), AFTER INSERT ON messages FOR EACH ROW.  The
    function is not SECURITY DEFINER: its statement runs as the user who
    inserts the message and passes that user's policy on the table. *)
Definition update_dm_participants (uid : option uuid)
    (dms : list DmParticipants.row) (NEW : Messages.row)
  : result (list DmParticipants.row) :=
  if holds (is_not_null (Messages.recipient_id NEW)) then
    let u1 := LEAST (Messages.user_id NEW) (Messages.recipient_id NEW) in
    let u2 := GREATEST (Messages.user_id NEW) (Messages.recipient_id NEW) in
    let r := {| DmParticipants.user1_id := u1;
                DmParticipants.user2_id := u2;
                DmParticipants.last_message_at := Messages.created_at NEW |} in
    if holds (Definitive.dm_participants_all uid r) then
      dm_upsert dms u1 u2 (Messages.created_at NEW)
    else Error (rls_violation "direct_message_participants")
  else Ok dms.

(** A plain INSERT of a conversation row, as the profiles hook issues it. *)
Definition dm_insert (uid : option uuid) (dms : list DmParticipants.row)
    (r : DmParticipants.row) : result (list DmParticipants.row) :=
  if holds (Definitive.dm_participants_all uid r) then
    if check_passes (check_different_users r) then
      if existsb (dm_conflict r) dms then
        Error (unique_violation "direct_message_participants_user1_id_user2_id_key")
      else Ok (dms ++ [r])
    else Error (check_violation "check_different_users")
  else Error (rls_violation "direct_message_participants").

(** useProfiles.fetchProfiles, for one other profile: look the conversation
    up in either order, [.single()] yielding a row only when exactly one
    matches; when it yields none, insert (user.id, profile.id).  The
    outcome of the insert is not inspected. *)
Definition existingDM (uid : option uuid) (dms : list DmParticipants.row)
    (user profile : uuid) : option DmParticipants.row :=
  let visible := filter (fun r => holds (Definitive.dm_participants_all uid r)) dms in
  let matching :=
    filter
      (fun r =>
         holds (sql_or
                  (sql_and (sql_eq (DmParticipants.user1_id r) (Some user))
                           (sql_eq (DmParticipants.user2_id r) (Some profile)))
                  (sql_and (sql_eq (DmParticipants.user1_id r) (Some profile))
                           (sql_eq (DmParticipants.user2_id r) (Some user)))))
      visible in
  match matching with
  | [r] => Some r
  | _ => None
  end.

Definition create_dm_conversation (dms : list DmParticipants.row)
    (user profile : uuid) (now : timestamptz) : list DmParticipants.row :=
  match existingDM (Some user) dms user profile with
  | Some _ => dms
  | None =>
      commit dms
        (dm_insert (Some user) dms
           {| DmParticipants.user1_id := Some user;
              DmParticipants.user2_id := Some profile;
              DmParticipants.last_message_at := now |})
  end.

(** The rows of the table that belong to the unordered pair {a, b}. *)
Definition is_pair_row (a b : uuid) (r : DmParticipants.row) : bool :=
  holds (sql_and (sql_eq (DmParticipants.user1_id r) (Some a))
                 (sql_eq (DmParticipants.user2_id r) (Some b)))
  || holds (sql_and (sql_eq (DmParticipants.user1_id r) (Some b))
                    (sql_eq (DmParticipants.user2_id r) (Some a))).

Definition rows_of_pair (a b : uuid) (dms : list DmParticipants.row)
  : list DmParticipants.row :=
  filter (is_pair_row a b) dms.

(** The rows stored under the ordered key (k1, k2). *)
Definition rows_keyed (k1 k2 : uuid) (dms : list DmParticipants.row)
  : list DmParticipants.row :=
  filter (fun r =>
            holds (sql_and (sql_eq (DmParticipants.user1_id r) (Some k1))
                           (sql_eq (DmParticipants.user2_id r) (Some k2))))
         dms.

(** A run of calls for one pair, each given in some argument order. *)
Fixpoint RecordDirectMessages (dms : list DmParticipants.row)
    (calls : list (uuid * uuid * timestamptz))
  : result (list DmParticipants.row) :=
  match calls with
  | [] => Ok dms
  | (x, y, ts) :: rest =>
      dms' <- RecordDirectMessage dms x y ts ;;
      RecordDirectMessages dms' rest
  end.


Definition max_timestamp (t0 : timestamptz) (ts : list timestamptz) : timestamptz :=
  fold_left Z.max ts t0.

(* ================================================================== *)
(** ** messages: the table insert and the whole INSERT statement        *)
(* ================================================================== *)

(** The error the message log reports for a row with no target or two. *)
Definition InvalidTarget : sql_error := check_violation "check_message_target".

(** The row reaches the table: CHECK constraint, then the primary key. *)
Definition Append (ms : list Messages.row) (m : Messages.row)
  : result (list Messages.row) :=
  if check_passes (check_message_target m) then
    if existsb (fun x => N.eqb (Messages.id x) (Messages.id m)) ms then
      Error (unique_violation "messages_pkey")
    else Ok (ms ++ [m])
  else Error InvalidTarget.

Definition has_one_target (m : Messages.row) : Prop :=
  (Messages.channel_id m <> None /\ Messages.recipient_id m = None) \/
  (Messages.channel_id m = None /\ Messages.recipient_id m <> None).

Definition with_messages (db : database) (ms : list Messages.row)
    (dms : list DmParticipants.row) : database :=
  {| channels := channels db;
     channel_members := channel_members db;
     messages := ms;
     direct_message_participants := dms |}.

(** INSERT INTO messages by an API client: the INSERT policy in force on
    the proposed row, the table's constraints, then the AFTER INSERT
    trigger; an error at any step aborts the statement as a whole.  The
    foreign keys of the row are not looked at here; insert_message_with_keys
    below is the statement with them. *)
Definition insert_message
    (policy : database -> option uuid -> Messages.row -> sqlbool)
    (db : database) (uid : option uuid) (NEW : Messages.row)
  : result database :=
  if holds (policy db uid NEW) then
    ms <- Append (messages db) NEW ;;
    dms <- update_dm_participants uid (direct_message_participants db) NEW ;;
    Ok (with_messages db ms dms)
  else Error (rls_violation "messages").

(** useMessages.sendMessage: the hook's channelId and recipientId go into
    the row as they are; id and created_at are filled in by the column
    defaults.  A failed insert is logged and nothing else happens. *)
Definition sendMessage
    (policy : database -> option uuid -> Messages.row -> sqlbool)
    (db : database) (user : option uuid)
    (channelId recipientId : option uuid) (content : string)
    (default_id : uuid) (now : timestamptz) : database :=
  match user with
  | None => db
  | Some u =>
      commit db
        (insert_message policy db (Some u)
           {| Messages.id := default_id;
              Messages.content := content;
              Messages.user_id := Some u;
              Messages.channel_id := channelId;
              Messages.recipient_id := recipientId;
              Messages.created_at := now |})
  end.

(* ================================================================== *)
(** ** channel_members: the auto-join trigger                           *)
(* ================================================================== *)

(** One row of INSERT ... ON CONFLICT (channel_id, user_id) DO NOTHING. *)
Definition insert_member_do_nothing (tbl : list ChannelMembers.row)
    (r : ChannelMembers.row) : list ChannelMembers.row :=
  if existsb (member_conflict r) tbl then tbl else tbl ++ [r].

(** auto_join_public_channels(), AFTER INSERT ON profiles FOR EACH ROW:
    INSERT INTO channel_members (channel_id, user_id, role)
    SELECT id, NEW.id, 'member' FROM channels WHERE is_private = false
    ON CONFLICT (channel_id, user_id) DO NOTHING *)
Definition auto_join_rows (db : database) (NEW_id : uuid)
  : list ChannelMembers.row :=
  map (fun c => {| ChannelMembers.channel_id := Some (Channels.id c);
                   ChannelMembers.user_id := Some NEW_id;
                   ChannelMembers.role := Some member |})
      (filter (fun c => holds (sql_eq_bool (Channels.is_private c) (Some false)))
              (channels db)).

Definition auto_join_public_channels (db : database) (NEW_id : uuid)
  : database :=
  {| channels := channels db;
     channel_members :=
       fold_left insert_member_do_nothing (auto_join_rows db NEW_id)
                 (channel_members db);
     messages := messages db;
     direct_message_participants := direct_message_participants db |}.

Definition has_membership (db : database) (c u : uuid) : Prop :=
  exists cm, In cm (channel_members db)
             /\ ChannelMembers.channel_id cm = Some c
             /\ ChannelMembers.user_id cm = Some u.

(* ================================================================== *)
(** ** useMessages.fetchMessages                                        *)
(* ================================================================== *)

(** The rows the SELECT policy lets the user read. *)
Definition visible_messages (db : database) (uid : option uuid)
  : list Messages.row :=
  filter (fun m => holds (Definitive.messages_select db uid m)) (messages db).

(** The filters the hook adds to the query; two [.or(...)] filters are
    two conjuncts of the WHERE clause. *)
Definition fetchMessages_where (user : uuid) (channelId recipientId : option uuid)
    (m : Messages.row) : sqlbool :=
  match channelId with
  | Some c => sql_eq (Messages.channel_id m) (Some c)
  | None =>
      match recipientId with
      | Some r =>
          sql_and (is_null (Messages.channel_id m))
            (sql_and
               (sql_or (sql_eq (Messages.user_id m) (Some user))
                       (sql_eq (Messages.user_id m) (Some r)))
               (sql_or (sql_eq (Messages.recipient_id m) (Some user))
                       (sql_eq (Messages.recipient_id m) (Some r))))
      | None => Some true
      end
  end.

Definition fetchMessages_rows (db : database) (user : uuid)
    (channelId recipientId : option uuid) : list Messages.row :=
  filter (fun m => holds (fetchMessages_where user channelId recipientId m))
         (visible_messages db (Some user)).

Definition le_created_at (x y : Messages.row) : Prop :=
  (Messages.created_at x <= Messages.created_at y)%Z.

Definition lt_created_at (x y : Messages.row) : Prop :=
  (Messages.created_at x < Messages.created_at y)%Z.

(** The order on the pair (created_at, id), id breaking ties. *)
Definition le_created_at_id (x y : Messages.row) : Prop :=
  (Messages.created_at x < Messages.created_at y)%Z
  \/ (Messages.created_at x = Messages.created_at y
      /\ (Messages.id x <= Messages.id y)%N).

(** [.order('created_at', { ascending: true })]: the rows come back in
    some order that is non-decreasing in created_at; SQL leaves the order
    of rows with equal keys to the executor. *)
Definition ordered_by_created_at (rows res : list Messages.row) : Prop :=
  Permutation rows res /\ Sorted le_created_at res.

(** What the hook can end up holding in its state after the fetch: nothing
    without a user or a target, else an answer to the query. *)
Definition fetchMessages_returns (db : database) (user : option uuid)
    (channelId recipientId : option uuid) (res : list Messages.row) : Prop :=
  match user, channelId, recipientId with
  | None, _, _ => res = []
  | Some _, None, None => res = []
  | Some u, _, _ =>
      ordered_by_created_at (fetchMessages_rows db u channelId recipientId) res
  end.

(** One executor: a stable insertion sort on created_at. *)
Fixpoint insert_by_created_at (x : Messages.row) (l : list Messages.row)
  : list Messages.row :=
  match l with
  | [] => [x]
  | y :: l' =>
      if (Messages.created_at x <=? Messages.created_at y)%Z
      then x :: y :: l'
      else y :: insert_by_created_at x l'
  end.

Definition order_by_created_at (rows : list Messages.row) : list Messages.row :=
  fold_right insert_by_created_at [] rows.

(** The fetch of the hook run with that executor: what [setMessages]
    receives. *)
Definition fetchMessages (db : database) (user : option uuid)
    (channelId recipientId : option uuid) : list Messages.row :=
  match user, channelId, recipientId with
  | None, _, _ => []
  | Some _, None, None => []
  | Some u, _, _ =>
      order_by_created_at (fetchMessages_rows db u channelId recipientId)
  end.


(** A conversation row with both users present. *)
Definition conversation (u1 u2 : uuid) (ts : timestamptz) : DmParticipants.row :=
  {| DmParticipants.user1_id := Some u1;
     DmParticipants.user2_id := Some u2;
     DmParticipants.last_message_at := ts |}.

(** The pair {a, b} has no row, or one row and that one under the
    canonical key. *)
Definition at_most_canonical_row (a b : uuid) (dms : list DmParticipants.row)
  : Prop :=
  rows_of_pair a b dms = []
  \/ exists t, rows_of_pair a b dms = [conversation (N.min a b) (N.max a b) t].

(** useProfiles.fetchProfiles: the profiles other than the user's own
    ([.neq('id', user.id)]), and for each of them the lookup and the insert
    above, taken one profile after the other. *)
Definition fetchProfiles_conversations (dms : list DmParticipants.row)
    (user : uuid) (profiles : list uuid) (now : timestamptz)
  : list DmParticipants.row :=
  fold_left (fun d profile => create_dm_conversation d user profile now)
            (filter (fun p => negb (N.eqb p user)) profiles)
            dms.

(** A table as the trigger alone builds it: every row has both users, the
    smaller id first, and no key occurs twice. *)
Definition dm_key (r : DmParticipants.row) : option uuid * option uuid :=
  (DmParticipants.user1_id r, DmParticipants.user2_id r).

Definition canonical_row (r : DmParticipants.row) : Prop :=
  exists lo hi, DmParticipants.user1_id r = Some lo
                /\ DmParticipants.user2_id r = Some hi
                /\ (lo < hi)%N.

Definition canonical_table (dms : list DmParticipants.row) : Prop :=
  Forall canonical_row dms /\ NoDup (map dm_key dms).

(* ================================================================== *)
(** ** Databases the application can reach                              *)
(* ================================================================== *)

Definition with_conversations (db : database) (dms : list DmParticipants.row)
  : database :=
  {| channels := channels db;
     channel_members := channel_members db;
     messages := messages db;
     direct_message_participants := dms |}.

(** One write of the application: an INSERT INTO messages that commits
    (under whatever INSERT policy a migration left in force), the auto-join
    trigger for a new profile, or the conversation inserts of the profiles
    hook. *)
Inductive db_step (db : database) : database -> Prop :=
| step_insert_message
    (policy : database -> option uuid -> Messages.row -> sqlbool)
    (uid : option uuid) (NEW : Messages.row) (db' : database) :
    insert_message policy db uid NEW = Ok db' -> db_step db db'
| step_auto_join (NEW_id : uuid) :
    db_step db (auto_join_public_channels db NEW_id)
| step_fetchProfiles (user : uuid) (profiles : list uuid) (now : timestamptz) :
    db_step db
      (with_conversations db
         (fetchProfiles_conversations (direct_message_participants db)
            user profiles now)).

Inductive reachable : database -> Prop :=
| reachable_fresh (db : database) :
    messages db = [] -> reachable db
| reachable_step (db db' : database) :
    reachable db -> db_step db db' -> reachable db'.

(** A stored direct message has an author, the author is not the
    recipient, and the conversation of the two is on record under its
    canonical key. *)
Definition dm_recorded (dms : list DmParticipants.row) (m : Messages.row)
  : Prop :=
  forall b, Messages.recipient_id m = Some b ->
    exists a, Messages.user_id m = Some a
              /\ a <> b
              /\ In (Some (N.min a b), Some (N.max a b)) (map dm_key dms).

Definition log_consistent (db : database) : Prop :=
  Forall has_one_target (messages db)
  /\ Forall (dm_recorded (direct_message_participants db)) (messages db)
  /\ NoDup (map Messages.id (messages db)).

(* ================================================================== *)
(** ** The other policies of the definitive migration                   *)
(* ================================================================== *)

Module DefinitiveRest.

(** "Users can view members of channels they belong to"
    ON channel_members FOR SELECT *)
Definition channel_members_select (db : database) (uid : option uuid)
    (cm : ChannelMembers.row) : sqlbool :=
  Some (is_channel_member db (ChannelMembers.channel_id cm) uid).

(** "Users can join and leave channels" ON channel_members FOR ALL, the
    same expression as USING and as WITH CHECK *)
Definition channel_members_all (uid : option uuid)
    (cm : ChannelMembers.row) : sqlbool :=
  sql_eq uid (ChannelMembers.user_id cm).

(** Permissive policies are combined with OR; a FOR ALL policy counts for
    SELECT too.  This is what a SELECT on channel_members lets through. *)
Definition channel_members_readable (db : database) (uid : option uuid)
    (cm : ChannelMembers.row) : sqlbool :=
  sql_or (channel_members_select db uid cm) (channel_members_all uid cm).

(** "Users can delete their own messages" ON messages FOR DELETE *)
Definition messages_delete (uid : option uuid) (m : Messages.row) : sqlbool :=
  sql_eq uid (Messages.user_id m).

End DefinitiveRest.

(** Errors of statements that also meet foreign keys, NOT NULL columns
    and names that no schema of the search path has. *)
Inductive pg_error : Type :=
| raised (e : sql_error)
| foreign_key_violation (constraint : string)
| not_null_violation (column : string)
| undefined_table (relation : string).

Inductive outcome (A : Type) : Type :=
| Done (a : A)
| Failed (e : pg_error).
Arguments Done {A} a.
Arguments Failed {A} e.

Definition settle {A : Type} (before : A) (o : outcome A) : A :=
  match o with
  | Done after => after
  | Failed _ => before
  end.

Inductive presence : Type := online | away | offline.

Module Profiles.
Record row : Type := {
  id : uuid;
  full_name : string;
  avatar_url : option string;
  status : option presence
}.
End Profiles.

(** The database together with the profiles table. *)
Record server : Type := {
  profiles : list Profiles.row;
  data : database
}.

Definition with_channel_members (db : database)
    (cms : list ChannelMembers.row) : database :=
  {| channels := channels db;
     channel_members := cms;
     messages := messages db;
     direct_message_participants := direct_message_participants db |}.

(** A foreign key on a nullable column accepts NULL and otherwise wants the
    referenced row. *)
Definition references_channel (db : database) (c : option uuid) : bool :=
  match c with
  | None => true
  | Some i => existsb (fun x => N.eqb (Channels.id x) i) (channels db)
  end.

Definition references_profile (ps : list Profiles.row) (u : option uuid) : bool :=
  match u with
  | None => true
  | Some i => existsb (fun x => N.eqb (Profiles.id x) i) ps
  end.

(** INSERT INTO channel_members by an API client under the definitive
    policies: WITH CHECK of the FOR ALL policy on the proposed row, the
    UNIQUE constraint, then the two foreign keys, which are checked at the
    end of the statement. *)
Definition insert_channel_member (s : server) (uid : option uuid)
    (r : ChannelMembers.row) : outcome server :=
  if holds (DefinitiveRest.channel_members_all uid r) then
    if existsb (member_conflict r) (channel_members (data s)) then
      Failed (raised (unique_violation "channel_members_channel_id_user_id_key"))
    else if references_channel (data s) (ChannelMembers.channel_id r) then
      if references_profile (profiles s) (ChannelMembers.user_id r) then
        Done {| profiles := profiles s;
                data := with_channel_members (data s)
                          (channel_members (data s) ++ [r]) |}
      else Failed (foreign_key_violation "channel_members_user_id_fkey")
    else Failed (foreign_key_violation "channel_members_channel_id_fkey")
  else Failed (raised (rls_violation "channel_members")).

(** INSERT INTO messages with the row's three foreign keys.  A foreign key
    is checked by an AFTER ROW trigger of its own; the triggers of one
    event fire in the order of their names, the keys' (RI_ConstraintTrigger
    and a number) in the order of the columns and all of them before
    on_dm_message_sent.  So the row passes the INSERT policy, the CHECK
    constraint and the primary key, then the keys of user_id, channel_id
    and recipient_id, and then the conversation is recorded; the row that
    update_dm_participants writes names the two users of the message, whose
    profiles have just been found, so its own keys hold. *)
Definition insert_message_with_keys
    (policy : database -> option uuid -> Messages.row -> sqlbool)
    (s : server) (uid : option uuid) (NEW : Messages.row) : outcome server :=
  if holds (policy (data s) uid NEW) then
    match Append (messages (data s)) NEW with
    | Error e => Failed (raised e)
    | Ok ms =>
        if references_profile (profiles s) (Messages.user_id NEW) then
          if references_channel (data s) (Messages.channel_id NEW) then
            if references_profile (profiles s) (Messages.recipient_id NEW) then
              match update_dm_participants uid
                      (direct_message_participants (data s)) NEW with
              | Error e => Failed (raised e)
              | Ok dms =>
                  Done {| profiles := profiles s;
                          data := with_messages (data s) ms dms |}
              end
            else Failed (foreign_key_violation "messages_recipient_id_fkey")
          else Failed (foreign_key_violation "messages_channel_id_fkey")
        else Failed (foreign_key_violation "messages_user_id_fkey")
    end
  else Failed (raised (rls_violation "messages")).

(** DELETE FROM channel_members WHERE [cond] by an API client: a row goes
    when the WHERE clause holds for it, the FOR ALL policy's USING lets the
    user delete it, and, the WHERE clause reading its columns, the SELECT
    policies let the user read it.  Rows the policies hide are skipped
    without an error. *)
Definition delete_channel_members (db : database) (uid : option uuid)
    (cond : ChannelMembers.row -> sqlbool) : database :=
  with_channel_members db
    (filter
       (fun cm =>
          negb (holds (cond cm)
                && holds (DefinitiveRest.channel_members_all uid cm)
                && holds (DefinitiveRest.channel_members_readable db uid cm)))
       (channel_members db)).

(** The WHERE clause of leaving a channel:
    channel_id = c AND user_id = u. *)
Definition membership_of (c u : uuid) (cm : ChannelMembers.row) : sqlbool :=
  sql_and (sql_eq (ChannelMembers.channel_id cm) (Some c))
          (sql_eq (ChannelMembers.user_id cm) (Some u)).

(* ================================================================== *)
(** ** Helpers of the earlier migrations                                *)
(* ================================================================== *)

(** public.can_view_channel(channel_id_to_check) of the final policy fix,
    SECURITY DEFINER; it reads auth.uid() itself. *)
Definition can_view_channel (db : database) (uid : option uuid)
    (channel_id_to_check : option uuid) : bool :=
  existsb
    (fun c =>
       holds
         (sql_and
            (sql_eq (Some (Channels.id c)) channel_id_to_check)
            (sql_or
               (sql_eq_bool (Channels.is_private c) (Some false))
               (sql_and
                  (sql_eq_bool (Channels.is_private c) (Some true))
                  (Some (is_channel_member db (Some (Channels.id c)) uid))))))
    (channels db).

(* ================================================================== *)
(** ** The hooks: live messages, last message, member counts            *)
(* ================================================================== *)

(** [x === y] between a nullable id of a row and an id at hand. *)
Definition js_eq (x : option uuid) (y : uuid) : bool :=
  match x with
  | Some a => N.eqb a y
  | None => false
  end.

(** useMessages, the test the DM subscription applies to an inserted row
    before it adds it to the list. *)
Definition dm_event_accepted (user recipientId : uuid) (message : Messages.row)
  : bool :=
  (js_eq (Messages.user_id message) user
   && js_eq (Messages.recipient_id message) recipientId)
  || (js_eq (Messages.user_id message) recipientId
      && js_eq (Messages.recipient_id message) user).

(** useProfiles.fetchProfiles, the last message between the user and a
    profile: the filters of the query, its order (created_at descending),
    [.limit(1)] and [.maybeSingle()]. *)
Definition conversation_where (user profile : uuid) (m : Messages.row)
  : sqlbool :=
  sql_and (is_null (Messages.channel_id m))
    (sql_or
       (sql_and (sql_eq (Messages.user_id m) (Some user))
                (sql_eq (Messages.recipient_id m) (Some profile)))
       (sql_and (sql_eq (Messages.user_id m) (Some profile))
                (sql_eq (Messages.recipient_id m) (Some user)))).

Definition conversation_rows (db : database) (user profile : uuid)
  : list Messages.row :=
  filter (fun m => holds (conversation_where user profile m))
         (visible_messages db (Some user)).

(** The columns the query selects, [select('content, created_at')];
    created_at has a default and no NOT NULL, so a row can carry NULL
    there. *)
Module LastMessage.
Record row : Type := {
  content : string;
  created_at : option timestamptz
}.
End LastMessage.

Definition select_content_created_at (m : Messages.row) : LastMessage.row :=
  {| LastMessage.content := Messages.content m;
     LastMessage.created_at := Some (Messages.created_at m) |}.

(** [ORDER BY created_at DESC]: [x] may stand before [y]; NULLs come
    first, then later timestamps before earlier ones. *)
Definition desc_leb (x y : option timestamptz) : bool :=
  match x, y with
  | None, _ => true
  | Some _, None => false
  | Some a, Some b => (b <=? a)%Z
  end.

Definition before_desc (x y : LastMessage.row) : Prop :=
  desc_leb (LastMessage.created_at x) (LastMessage.created_at y) = true.

Definition ordered_by_created_at_desc (rows res : list LastMessage.row) : Prop :=
  Permutation rows res /\ Sorted before_desc res.

(** [.order('created_at', { ascending: false }).limit(1).maybeSingle()] over
    the selected rows: the first row of some answer, or null. *)
Definition lastMessage_of (rows : list LastMessage.row)
    (lastMessage : option LastMessage.row) : Prop :=
  exists res, ordered_by_created_at_desc rows res /\ lastMessage = hd_error res.

(** The query of the hook on the rows of the model, whose created_at is
    never NULL. *)
Definition lastMessage_returns (db : database) (user profile : uuid)
    (lastMessage : option LastMessage.row) : Prop :=
  lastMessage_of
    (map select_content_created_at (conversation_rows db user profile))
    lastMessage.

(** [lastMessage?.created_at || null] *)
Definition lastMessageTime (lastMessage : option LastMessage.row)
  : option timestamptz :=
  match lastMessage with
  | Some r => LastMessage.created_at r
  | None => None
  end.

(** One executor for the descending order: an insertion sort. *)
Fixpoint insert_desc (x : LastMessage.row) (l : list LastMessage.row)
  : list LastMessage.row :=
  match l with
  | [] => [x]
  | y :: l' =>
      if desc_leb (LastMessage.created_at x) (LastMessage.created_at y)
      then x :: y :: l'
      else y :: insert_desc x l'
  end.

Definition order_by_created_at_desc (rows : list LastMessage.row)
  : list LastMessage.row :=
  fold_right insert_desc [] rows.

Definition has_null_created_at (rows : list LastMessage.row) : bool :=
  existsb (fun r => match LastMessage.created_at r with
                    | None => true
                    | Some _ => false
                    end) rows.

(** The timestamps that are not NULL, in the order of the rows. *)
Definition timestamps (rows : list LastMessage.row) : list timestamptz :=
  flat_map (fun r => match LastMessage.created_at r with
                     | Some t => [t]
                     | None => []
                     end) rows.

(** NULL when a row has no created_at or there is no row, else the
    greatest created_at. *)
Definition latest_or_null (rows : list LastMessage.row) : option timestamptz :=
  if has_null_created_at rows then None
  else match timestamps rows with
       | [] => None
       | t :: ts => Some (fold_left Z.max ts t)
       end.

(** The greatest created_at of a list of rows, if it has any. *)
Definition latest_created_at (rows : list Messages.row) : option timestamptz :=
  match rows with
  | [] => None
  | m :: rest =>
      Some (fold_left Z.max (map Messages.created_at rest)
                      (Messages.created_at m))
  end.

(** useChannels.fetchChannels, the count query of one channel:
    [select('*', { count: 'exact', head: true }).eq('channel_id', id)],
    over the membership rows the policies let the user read. *)
Definition channel_member_count (db : database) (user : uuid) (channel : uuid)
  : nat :=
  List.length
    (filter
       (fun cm => holds (sql_eq (ChannelMembers.channel_id cm) (Some channel)))
       (filter
          (fun cm =>
             holds (DefinitiveRest.channel_members_readable db (Some user) cm))
          (channel_members db))).

(* ================================================================== *)
(** ** App: which conversation is open                                  *)
(* ================================================================== *)

Record app_state : Type := {
  activeChannelId : option uuid;
  activeDMUserId : option uuid
}.

Definition initial_app_state : app_state :=
  {| activeChannelId := None; activeDMUserId := None |}.

Definition handleChannelSelect (st : app_state) (channelId : uuid) : app_state :=
  {| activeChannelId := Some channelId; activeDMUserId := None |}.

Definition handleDMSelect (st : app_state) (userId : uuid) : app_state :=
  {| activeChannelId := None; activeDMUserId := Some userId |}.

(** The effect that opens "general", or else the first channel, once the
    channel list is there and nothing is open yet. *)
Definition auto_select (channels : list Channels.row) (st : app_state)
  : app_state :=
  match channels, activeChannelId st, activeDMUserId st with
  | first :: _, None, None =>
      match find (fun c => String.eqb (Channels.name c) "general") channels with
      | Some generalChannel =>
          {| activeChannelId := Some (Channels.id generalChannel);
             activeDMUserId := activeDMUserId st |}
      | None =>
          {| activeChannelId := Some (Channels.id first);
             activeDMUserId := activeDMUserId st |}
      end
  | _, _, _ => st
  end.

Inductive app_event : Type :=
| ChannelSelect (channelId : uuid)
| DMSelect (userId : uuid)
| ChannelsLoaded (channels : list Channels.row).

Definition app_step (st : app_state) (e : app_event) : app_state :=
  match e with
  | ChannelSelect c => handleChannelSelect st c
  | DMSelect u => handleDMSelect st u
  | ChannelsLoaded cs => auto_select cs st
  end.

(** Not both a channel and a direct conversation. *)
Definition one_open_at_most (st : app_state) : Prop :=
  activeChannelId st = None \/ activeDMUserId st = None.

(** The row that sendMessage builds from the open conversation. *)
Definition messageData (st : app_state) (user : uuid) (content : string)
    (default_id : uuid) (now : timestamptz) : Messages.row :=
  {| Messages.id := default_id;
     Messages.content := content;
     Messages.user_id := Some user;
     Messages.channel_id := activeChannelId st;
     Messages.recipient_id := activeDMUserId st;
     Messages.created_at := now |}.

(* ================================================================== *)
(** ** MessageList: grouping the messages for display                   *)
(* ================================================================== *)

Module MessageList.

(** A fetched message: the row and the joined profile of its author. *)
Record message : Type := {
  row : Messages.row;
  profiles_full_name : string;
  profiles_avatar_url : option string
}.

Record group_user : Type := {
  id : option uuid;
  full_name : string;
  avatar_url : option string;
  isCurrentUser : bool
}.

Record group : Type := {
  user : group_user;
  messages : list message
}.

(** The timestamps that [new Date] reads.  PostgREST prints created_at in
    ISO 8601, in UTC; a year of four digits, 0001 to 9999, is read, and
    anything else (a year from 10000 on, a year BC, infinity) gives an
    invalid date.  The bounds are in microseconds from the epoch. *)
Definition parses (t : timestamptz) : bool :=
  ((-62135596800000000 <=? t) && (t <? 253402300800000000))%Z.

(** [new Date(created_at).getTime()]: the milliseconds of the timestamp, or
    NaN, here [None], when the date is invalid. *)
Definition getTime (m : message) : option Z :=
  if parses (Messages.created_at (row m))
  then Some (Messages.created_at (row m) / 1000)%Z
  else None.

(** [a - b] on two such numbers: NaN as soon as one of them is. *)
Definition minus (a b : option Z) : option Z :=
  match a, b with
  | Some x, Some y => Some (x - y)%Z
  | _, _ => None
  end.

(** [d < n]: false when [d] is NaN. *)
Definition less_than (d : option Z) (n : Z) : bool :=
  match d with
  | Some x => (x <? n)%Z
  | None => false
  end.

(** The negation of [a !== b] on two nullable ids. *)
Definition same_id (a b : option uuid) : bool :=
  match a, b with
  | Some x, Some y => N.eqb x y
  | None, None => true
  | _, _ => false
  end.

(** [message.user_id === user?.id] *)
Definition is_current_user (currentUser : option uuid) (m : message) : bool :=
  match currentUser with
  | Some u => js_eq (Messages.user_id (row m)) u
  | None => false
  end.

Definition new_group (currentUser : option uuid) (m : message) : group :=
  {| user := {| id := Messages.user_id (row m);
                full_name := profiles_full_name m;
                avatar_url := profiles_avatar_url m;
                isCurrentUser := is_current_user currentUser m |};
     messages := [m] |}.

Definition split_last {A : Type} (l : list A) : option (list A * A) :=
  match rev l with
  | [] => None
  | x :: before => Some (rev before, x)
  end.

(** The body of [messages.forEach]: [grouped] is the array built so far
    and currentGroup, when there is one, is its last element, extended in
    place.  A group is never empty, so the default of [last] is not
    read. *)
Definition forEach_body (currentUser : option uuid) (grouped : list group)
    (m : message) : list group :=
  match split_last grouped with
  | None => grouped ++ [new_group currentUser m]
  | Some (before, currentGroup) =>
      if negb (same_id (id (user currentGroup)) (Messages.user_id (row m)))
      then grouped ++ [new_group currentUser m]
      else
        let lastMessage := last (messages currentGroup) m in
        let timeDiff := minus (getTime m) (getTime lastMessage) in
        if less_than timeDiff (5 * 60 * 1000)
        then before ++ [{| user := user currentGroup;
                           messages := messages currentGroup ++ [m] |}]
        else grouped ++ [new_group currentUser m]
  end.

Definition groupMessagesByUser (currentUser : option uuid)
    (ms : list message) : list group :=
  fold_left (forEach_body currentUser) ms [].

(** Whether the loop adds [m] to [currentGroup]: same user id and less
    than five minutes after the group's last message, both times being
    numbers. *)
Definition joins (currentGroup : group) (m : message) : bool :=
  same_id (id (user currentGroup)) (Messages.user_id (row m))
  && less_than (minus (getTime m) (getTime (last (messages currentGroup) m)))
               (5 * 60 * 1000).

(** The same grouping read from the front: the groups that the loop ends
    with when it is at [currentGroup] and still has [rest] to read. *)
Fixpoint groups_from (currentUser : option uuid) (currentGroup : group)
    (rest : list message) : list group :=
  match rest with
  | [] => [currentGroup]
  | m :: rest' =>
      if joins currentGroup m
      then groups_from currentUser
             {| user := user currentGroup;
                messages := messages currentGroup ++ [m] |} rest'
      else currentGroup :: groups_from currentUser (new_group currentUser m) rest'
  end.

(** [m2] has a time less than five minutes after the time of [m1]. *)
Definition soon_after (m1 m2 : message) : Prop :=
  exists t1 t2, getTime m1 = Some t1 /\ getTime m2 = Some t2
                /\ (t2 - t1 < 300000)%Z.

(** Each message less than five minutes after the one before. *)
Fixpoint timely (ms : list message) : Prop :=
  match ms with
  | m1 :: ((m2 :: _) as tl) => soon_after m1 m2 /\ timely tl
  | _ => True
  end.

(** A group as the loop builds them: it has a first message, its user is
    made from that message, every message carries the group's user id, and
    the messages are timely. *)
Definition well_formed (currentUser : option uuid) (g : group) : Prop :=
  (exists m ms, messages g = m :: ms
                /\ user g = user (new_group currentUser m))
  /\ Forall (fun m => Messages.user_id (row m) = id (user g)) (messages g)
  /\ timely (messages g).



End MessageList.

(* ================================================================== *)
(** ** Signing up, and the seed channels                                *)
(* ================================================================== *)

Definition COALESCE (x y : option string) : option string :=
  match x with
  | Some _ => x
  | None => y
  end.

(** A table named without its schema is looked up in the schemas of the
    search path; the tables of the application are all in public. *)
Definition resolves (search_path : list string) : bool :=
  existsb (String.eqb "public") search_path.

(** ALTER FUNCTION public.handle_new_user() SET search_path = '' *)
Definition hardened : list string := [].

(** public.handle_new_user(), AFTER INSERT ON auth.users, SECURITY
    DEFINER: INSERT INTO public.profiles (id, full_name, avatar_url) VALUES
    (new.id, COALESCE(new.raw_user_meta_data->>'full_name', new.email),
    new.raw_user_meta_data->>'avatar_url').  full_name is NOT NULL, id is
    the primary key, status takes its default; the insert fires
    auto_join_public_channels() for the new profile.  [search_path] is the
    path the function runs under: the caller's as the function was first
    created, [hardened] since the ALTER FUNCTION.  The insert names
    public.profiles with its schema, but the trigger function has no
    search_path of its own and names channel_members and channels without
    one, so it looks them up in the path of the statement that fired it,
    the target of its INSERT first. *)
Definition handle_new_user (search_path : list string) (s : server)
    (new_id : uuid) (meta_full_name meta_avatar_url new_email : option string)
  : outcome server :=
  match COALESCE meta_full_name new_email with
  | None => Failed (not_null_violation "full_name")
  | Some n =>
      if existsb (fun p => N.eqb (Profiles.id p) new_id) (profiles s) then
        Failed (raised (unique_violation "profiles_pkey"))
      else if resolves search_path then
        Done {| profiles :=
                  profiles s ++ [{| Profiles.id := new_id;
                                    Profiles.full_name := n;
                                    Profiles.avatar_url := meta_avatar_url;
                                    Profiles.status := Some offline |}];
                data := auto_join_public_channels (data s) new_id |}
      else Failed (undefined_table "channel_members")
  end.

(** One row of INSERT INTO channels ... ON CONFLICT (name) DO NOTHING: a
    row whose name is taken is skipped; the primary key is not an arbiter
    and still raises. *)
Definition insert_channel_on_conflict_name (tbl : list Channels.row)
    (r : Channels.row) : result (list Channels.row) :=
  if existsb (fun x => String.eqb (Channels.name x) (Channels.name r)) tbl then
    Ok tbl
  else if existsb (fun x => N.eqb (Channels.id x) (Channels.id r)) tbl then
    Error (unique_violation "channels_pkey")
  else Ok (tbl ++ [r]).

Fixpoint insert_channels_on_conflict_name (tbl : list Channels.row)
    (rows : list Channels.row) : result (list Channels.row) :=
  match rows with
  | [] => Ok tbl
  | r :: rest =>
      tbl' <- insert_channel_on_conflict_name tbl r ;;
      insert_channels_on_conflict_name tbl' rest
  end.

(** The rows of the seed migration. *)
Definition seed_rows : list Channels.row :=
  [ {| Channels.id := 0x550e8400e29b41d4a716446655440001;
       Channels.name := "general";
       Channels.is_private := Some false; Channels.created_by := None |};
    {| Channels.id := 0x550e8400e29b41d4a716446655440002;
       Channels.name := "random";
       Channels.is_private := Some false; Channels.created_by := None |};
    {| Channels.id := 0x550e8400e29b41d4a716446655440003;
       Channels.name := "development";
       Channels.is_private := Some false; Channels.created_by := None |} ].

Definition seed_default_channels (tbl : list Channels.row)
  : result (list Channels.row) :=
  insert_channels_on_conflict_name tbl seed_rows.

(** useProfiles, the subscription to profile updates: the entry with the
    id of the updated row takes the fields of that row
    ([{ ...profile, ...payload.new }], the new row carrying every field of
    a profile), the other entries stay. *)
Definition on_profile_update (payload_new : Profiles.row)
    (prev : list Profiles.row) : list Profiles.row :=
  map (fun profile =>
         if N.eqb (Profiles.id profile) (Profiles.id payload_new)
         then payload_new
         else profile)
      prev.

(* ================================================================== *)
(** ** The message policies of the recursion fix                        *)
(* ================================================================== *)

(** Two permissive policies per command; the row passes when one of them
    holds. *)
Module RecursionFix.

(** "Users can view messages in accessible channels" and
    "Users can view their DMs", ON messages FOR SELECT *)
Definition messages_select (db : database) (uid : option uuid)
    (m : Messages.row) : sqlbool :=
  sql_or
    (sql_and (is_not_null (Messages.channel_id m))
             (Some (can_access_channel db (Messages.channel_id m) uid)))
    (sql_and (is_null (Messages.channel_id m))
             (sql_or (sql_eq uid (Messages.user_id m))
                     (sql_eq uid (Messages.recipient_id m)))).

(** "Users can send messages in accessible channels" and
    "Users can send DMs", ON messages FOR INSERT WITH CHECK *)
Definition messages_insert (db : database) (uid : option uuid)
    (m : Messages.row) : sqlbool :=
  sql_or
    (sql_and (is_not_null (Messages.channel_id m))
             (Some (can_access_channel db (Messages.channel_id m) uid)))
    (sql_and (is_null (Messages.channel_id m))
             (sql_eq uid (Messages.user_id m))).

End RecursionFix.
(* ================================================================== *)
(** ** Sample databases                                                 *)
(* ================================================================== *)

Definition design_channel : Channels.row :=
  {| Channels.id := 9%N; Channels.name := "design";
     Channels.is_private := Some true; Channels.created_by := Some 1%N |}.

Definition general_channel : Channels.row :=
  {| Channels.id := 7%N; Channels.name := "general";
     Channels.is_private := Some false; Channels.created_by := None |}.

Definition membership (c u : uuid) (r : member_role) : ChannelMembers.row :=
  {| ChannelMembers.channel_id := Some c;
     ChannelMembers.user_id := Some u;
     ChannelMembers.role := Some r |}.

(** U1 created the private channel "design" and added U2; "general" is
    public and has no member at all. *)
Definition design_db : database :=
  {| channels := [general_channel; design_channel];
     channel_members := [membership 9 1 admin; membership 9 2 member];
     messages := [];
     direct_message_participants := [] |}.

Definition channel_message (i : uuid) (author c : uuid) (ts : timestamptz)
  : Messages.row :=
  {| Messages.id := i; Messages.content := "hello";
     Messages.user_id := Some author;
     Messages.channel_id := Some c;
     Messages.recipient_id := None;
     Messages.created_at := ts |}.

Definition direct_message (i : uuid) (author r : uuid) (ts : timestamptz)
  : Messages.row :=
  {| Messages.id := i; Messages.content := "hello";
     Messages.user_id := Some author;
     Messages.channel_id := None;
     Messages.recipient_id := Some r;
     Messages.created_at := ts |}.

(** "general" is public; user 2 is its only member and has posted once. *)
Definition general_db : database :=
  {| channels := [general_channel];
     channel_members := [membership 7 2 member];
     messages := [channel_message 100 2 7 10];
     direct_message_participants := [] |}.

(** Two messages of user 1 in channel 7 that carry the same created_at;
    the row stored first has the greater id. *)
Definition tie_db : database :=
  {| channels := [general_channel];
     channel_members := [membership 7 1 member];
     messages := [channel_message 2 1 7 10; channel_message 1 1 7 10];
     direct_message_participants := [] |}.

(** A channel whose is_private was set to NULL, with one member. *)
Definition undecided_channel : Channels.row :=
  {| Channels.id := 11; Channels.name := "undecided";
     Channels.is_private := None; Channels.created_by := Some 1%N |}.

Definition undecided_db : database :=
  {| channels := [general_channel; undecided_channel];
     channel_members := [membership 11 1 admin];
     messages := [];
     direct_message_participants := [] |}.

(** Users 1 and 2 have exchanged three messages, stored out of time
    order. *)
Definition chat_db : database :=
  {| channels := [];
     channel_members := [];
     messages := [direct_message 801 1 2 10; direct_message 802 2 1 30;
                  direct_message 803 1 2 20];
     direct_message_participants := [conversation 1 2 20] |}.


(** A row that names neither a channel nor a recipient, in the name of
    user 2. *)
Definition no_target_message : Messages.row :=
  {| Messages.id := 104; Messages.content := "neither";
     Messages.user_id := Some 2%N; Messages.channel_id := None;
     Messages.recipient_id := None; Messages.created_at := 30 |}.

(** Four messages of user 1 in channel 7, stored out of time order, two of
    them with the same created_at. *)
Definition busy_db : database :=
  {| channels := [general_channel];
     channel_members := [membership 7 1 member];
     messages := [channel_message 4 1 7 30; channel_message 2 1 7 10;
                  channel_message 3 1 7 20; channel_message 1 1 7 20];
     direct_message_participants := [] |}.

(** Three messages in channel 7 and two between users 1 and 2, each
    conversation stored with strictly increasing created_at. *)
Definition ordered_db : database :=
  {| channels := [general_channel];
     channel_members := [membership 7 1 member; membership 7 2 member];
     messages := [channel_message 1 1 7 10; direct_message 2 1 2 15;
                  channel_message 3 2 7 20; direct_message 4 2 1 25;
                  channel_message 5 1 7 30];
     direct_message_participants := [conversation 1 2 25] |}.

Definition profile (i : uuid) (n : string) : Profiles.row :=
  {| Profiles.id := i; Profiles.full_name := n;
     Profiles.avatar_url := None; Profiles.status := Some offline |}.


(** The selected columns of three messages, one of them without a
    created_at. *)
Definition unstamped_rows : list LastMessage.row :=
  [{| LastMessage.content := "first"; LastMessage.created_at := Some 10%Z |};
   {| LastMessage.content := "second"; LastMessage.created_at := None |};
   {| LastMessage.content := "third"; LastMessage.created_at := Some 30%Z |}].



(* ================================================================== *)
(** ** Three-valued logic: what [holds] sees                            *)
(* ================================================================== *)

Lemma holds_sql_and (a b : sqlbool) :
  holds (sql_and a b) = holds a && holds b.
Proof. destruct a as [[|]|], b as [[|]|]; reflexivity. Qed.

Lemma holds_sql_or (a b : sqlbool) :
  holds (sql_or a b) = holds a || holds b.
Proof. destruct a as [[|]|], b as [[|]|]; reflexivity. Qed.

Lemma holds_Some (b : bool) : holds (Some b) = b.
Proof. destruct b; reflexivity. Qed.

Lemma holds_sql_eq (x y : option uuid) :
  holds (sql_eq x y) = true <-> exists a, x = Some a /\ y = Some a.
Proof.
  destruct x as [a|], y as [b|]; unfold sql_eq.
  - rewrite holds_Some, N.eqb_eq. split.
    + intros ->. now exists b.
    + intros (c & Ha & Hb). congruence.
  - split; [discriminate | intros (c & _ & H); discriminate].
  - split; [discriminate | intros (c & H & _); discriminate].
  - split; [discriminate | intros (c & H & _); discriminate].
Qed.

Lemma holds_sql_eq_Some_r (x : option uuid) (b : uuid) :
  holds (sql_eq x (Some b)) = true <-> x = Some b.
Proof.
  rewrite holds_sql_eq. split.
  - intros (a & -> & H). congruence.
  - intros ->. now exists b.
Qed.

Lemma holds_sql_eq_Some_l (a : uuid) (y : option uuid) :
  holds (sql_eq (Some a) y) = true <-> y = Some a.
Proof.
  rewrite holds_sql_eq. split.
  - intros (c & H & ->). congruence.
  - intros ->. now exists a.
Qed.

Lemma holds_is_private_false (p : option bool) :
  holds (sql_eq_bool p (Some false)) = true <-> p = Some false.
Proof. destruct p as [[|]|]; simpl; split; congruence. Qed.

Lemma holds_is_not_null {A : Type} (x : option A) :
  holds (is_not_null x) = true <-> x <> None.
Proof. destruct x; simpl; split; congruence. Qed.

Lemma is_channel_member_iff (db : database) (c u : uuid) :
  is_channel_member db (Some c) (Some u) = true <-> has_membership db c u.
Proof.
  unfold is_channel_member, has_membership. rewrite existsb_exists.
  split.
  - intros (cm & Hin & H). exists cm.
    rewrite holds_sql_and, andb_true_iff, !holds_sql_eq_Some_r in H. tauto.
  - intros (cm & Hin & Hc & Hu). exists cm. split; [assumption|].
    rewrite holds_sql_and, andb_true_iff, !holds_sql_eq_Some_r. tauto.
Qed.

Lemma is_channel_member_null_channel (db : database) (uid : option uuid) :
  is_channel_member db None uid = false.
Proof.
  unfold is_channel_member. induction (channel_members db) as [|cm l IH].
  - reflexivity.
  - simpl. rewrite IH, orb_false_r, holds_sql_and.
    destruct (ChannelMembers.channel_id cm); reflexivity.
Qed.

(* ================================================================== *)
(** ** Channel visibility                                               *)
(* ================================================================== *)

Lemma select_is_private_found (db : database) (c : Channels.row) :
  In c (channels db) ->
  NoDup (map Channels.id (channels db)) ->
  select_is_private db (Some (Channels.id c)) = Channels.is_private c.
Proof.
  unfold select_is_private. induction (channels db) as [|d l IH]; simpl.
  - intros [].
  - intros Hin Hnd. inversion Hnd as [|? ? Hnot Hnd']; subst.
    destruct (N.eqb_spec (Channels.id d) (Channels.id c)) as [E|E].
    + destruct Hin as [->|Hin]; [reflexivity|].
      exfalso. apply Hnot. rewrite E. now apply in_map.
    + destruct Hin as [->|Hin]; [congruence|]. now apply IH.
Qed.

Lemma CanViewChannel_iff (db : database) (u : uuid) (c : Channels.row) :
  CanViewChannel db u c = true <->
  Channels.is_private c = Some false \/ has_membership db (Channels.id c) u.
Proof.
  unfold CanViewChannel, Definitive.channels_select.
  rewrite holds_sql_or, orb_true_iff, holds_is_private_false, holds_Some.
  now rewrite is_channel_member_iff.
Qed.

Lemma can_access_channel_iff (db : database) (c u : uuid) :
  can_access_channel db (Some c) (Some u) = true <->
  select_is_private db (Some c) = Some false \/ has_membership db c u.
Proof.
  unfold can_access_channel.
  rewrite <- is_channel_member_iff, <- holds_is_private_false.
  destruct (holds (sql_eq_bool (select_is_private db (Some c)) (Some false)));
    intuition congruence.
Qed.

(** C3: a user may view a channel exactly when the channel's is_private is
    false or the user has a membership row for it: every public channel is
    visible to everyone, a private one to its members and to nobody else.
    The helper can_access_channel of the recursion fix decides the same for
    a channel of the table. *)
Theorem CanViewChannel_public_or_member (db : database) (u : uuid)
    (c : Channels.row) :
  (CanViewChannel db u c = true <->
   Channels.is_private c = Some false \/ has_membership db (Channels.id c) u)
  /\ (Channels.is_private c = Some false -> CanViewChannel db u c = true)
  /\ (Channels.is_private c = Some true ->
      (CanViewChannel db u c = true <-> has_membership db (Channels.id c) u))
  /\ (In c (channels db) -> NoDup (map Channels.id (channels db)) ->
      can_access_channel db (Some (Channels.id c)) (Some u)
      = CanViewChannel db u c).
Proof.
  pose proof (CanViewChannel_iff db u c) as H.
  repeat split.
  - apply H.
  - apply H.
  - intros Hpub. apply H. now left.
  - intros Hv. apply H in Hv. destruct Hv; [congruence | assumption].
  - intros Hm. apply H. now right.
  - intros Hin Hnd.
    apply eq_true_iff_eq. rewrite can_access_channel_iff, H.
    now rewrite (select_is_private_found db c Hin Hnd).
Qed.

Lemma CanViewChannel_public_or_member_witness :
  (CanViewChannel design_db 3 design_channel = true <->
   has_membership design_db 9 3)
  /\ can_access_channel design_db (Some 9%N) (Some 3%N)
     = CanViewChannel design_db 3 design_channel
  /\ CanViewChannel design_db 3 general_channel = true.
Proof.
  destruct (CanViewChannel_public_or_member design_db 3 design_channel)
    as (_ & _ & Hpriv & Hacc).
  destruct (CanViewChannel_public_or_member design_db 3 general_channel)
    as (_ & Hpub & _ & _).
  split; [apply Hpriv; reflexivity|].
  split; [|apply Hpub; reflexivity].
  apply Hacc.
  - simpl. auto.
  - simpl. repeat constructor; simpl; intuition discriminate.
Defined.

(* ================================================================== *)
(** ** Message visibility and posting                                   *)
(* ================================================================== *)

Lemma messages_select_channel (db : database) (uid : option uuid)
    (m : Messages.row) :
  Messages.recipient_id m = None ->
  holds (Definitive.messages_select db uid m)
  = is_channel_member db (Messages.channel_id m) uid.
Proof.
  intros Hr. unfold Definitive.messages_select.
  rewrite Hr, holds_sql_or, !holds_sql_and, holds_Some.
  cbn [is_not_null holds andb]. rewrite orb_false_r.
  destruct (Messages.channel_id m) as [c|]; cbn [is_not_null holds andb].
  - reflexivity.
  - now rewrite is_channel_member_null_channel.
Qed.

Lemma messages_select_direct (db : database) (u : uuid) (m : Messages.row) :
  Messages.channel_id m = None ->
  holds (Definitive.messages_select db (Some u) m) = true <->
  Messages.recipient_id m <> None
  /\ (Messages.user_id m = Some u \/ Messages.recipient_id m = Some u).
Proof.
  intros Hc. unfold Definitive.messages_select.
  rewrite Hc, holds_sql_or, !holds_sql_and, holds_sql_or.
  cbn [is_not_null holds andb orb].
  rewrite andb_true_iff, orb_true_iff, holds_is_not_null,
    !holds_sql_eq_Some_l.
  intuition congruence.
Qed.

(** C2, as the policies have it: a message addressed to a channel is
    visible to the members of that channel and to nobody else, whether the
    channel is public or private, so seeing the message implies seeing the
    channel but not the other way round; a message addressed to a recipient
    is visible exactly to its author and to its recipient. *)
Theorem CanViewMessage_member_or_party (db : database) (u : uuid)
    (m : Messages.row) :
  (forall c, Messages.channel_id m = Some c ->
             Messages.recipient_id m = None ->
             CanViewMessage db u m = is_channel_member db (Some c) (Some u))
  /\ (forall c, Messages.channel_id m = Some (Channels.id c) ->
                Messages.recipient_id m = None ->
                CanViewMessage db u m = true -> CanViewChannel db u c = true)
  /\ (forall r, Messages.channel_id m = None ->
                Messages.recipient_id m = Some r ->
                (CanViewMessage db u m = true <->
                 Messages.user_id m = Some u \/ r = u)).
Proof.
  unfold CanViewMessage. repeat split.
  - intros c Hc Hr. now rewrite messages_select_channel, Hc.
  - intros c Hc Hr Hv.
    rewrite messages_select_channel, Hc, is_channel_member_iff in Hv
      by assumption.
    apply CanViewChannel_iff. now right.
  - intros Hv. apply messages_select_direct in Hv; [|assumption].
    destruct Hv as (_ & [Ha | Hb]); [now left | right; congruence].
  - intros Hv. apply messages_select_direct; [assumption|].
    split; [congruence|]. destruct Hv as [Ha | ->]; [now left | now right].
Qed.

Lemma CanViewMessage_member_or_party_witness :
  CanViewMessage general_db 2 (channel_message 100 2 7 10)
  = is_channel_member general_db (Some 7%N) (Some 2%N)
  /\ CanViewChannel general_db 2 general_channel = true
  /\ (CanViewMessage general_db 2 (direct_message 101 1 2 20) = true <->
      Some 1%N = Some 2%N \/ 2%N = 2%N).
Proof.
  destruct (CanViewMessage_member_or_party general_db 2
              (channel_message 100 2 7 10)) as (Hc & Hv & _).
  destruct (CanViewMessage_member_or_party general_db 2
              (direct_message 101 1 2 20)) as (_ & _ & Hd).
  split; [apply Hc; reflexivity|].
  split; [apply Hv; reflexivity|].
  apply (Hd 2%N); reflexivity.
Defined.

(** C2 as stated fails: user 3 has no membership row for the public
    channel "general", may view the channel, and may not view the message
    posted in it. *)
Lemma CanViewMessage_public_channel_needs_membership :
  Messages.channel_id (channel_message 100 2 7 10) = Some (Channels.id general_channel)
  /\ Channels.is_private general_channel = Some false
  /\ In (channel_message 100 2 7 10) (messages general_db)
  /\ CanViewChannel general_db 3 general_channel = true
  /\ CanViewMessage general_db 3 (channel_message 100 2 7 10) = false
  /\ CanViewMessage general_db 3 (channel_message 100 2 7 10)
     <> CanViewChannel general_db 3 general_channel.
Proof.
  repeat split; try reflexivity.
  - simpl. auto.
  - vm_compute. discriminate.
Qed.

Lemma sql_eq_sym (x y : option uuid) : sql_eq x y = sql_eq y x.
Proof.
  destruct x as [a|], y as [b|]; simpl; try reflexivity.
  now rewrite N.eqb_sym.
Qed.

(** The first and the last migration give messages the same SELECT rule. *)
Lemma InitialSchema_select_agrees (db : database) (uid : option uuid)
    (m : Messages.row) :
  InitialSchema.messages_select db uid m = Definitive.messages_select db uid m.
Proof.
  unfold InitialSchema.messages_select, Definitive.messages_select.
  now rewrite (sql_eq_sym (Messages.user_id m)),
    (sql_eq_sym (Messages.recipient_id m)).
Qed.

(** The INSERT policy of the initial schema lets a user post only rows
    that carry the user's own id as author. *)
Lemma InitialSchema_insert_requires_author (db : database) (u : uuid)
    (m : Messages.row) :
  holds (InitialSchema.messages_insert db (Some u) m) = true ->
  Messages.user_id m = Some u.
Proof.
  unfold InitialSchema.messages_insert.
  rewrite holds_sql_and, andb_true_iff, holds_sql_eq_Some_r. tauto.
Qed.

(** C1 at two rows the code accepts: user 1, a member of channel 7, posts
    in it a row whose author is user 2, and user 1 inserts a direct message
    from user 2 to user 1.  The definitive INSERT policy authorizes both,
    the whole statement commits them, and the initial schema's policy
    refuses both. *)
Theorem CanPostMessage_admits_foreign_author :
  let db := {| channels := [general_channel];
               channel_members := [membership 7 1 member];
               messages := [];
               direct_message_participants := [] |} in
  let in_channel := channel_message 100 2 7 10 in
  let direct := direct_message 101 2 1 20 in
  Messages.user_id in_channel <> Some 1%N
  /\ CanPostMessage db 1 in_channel = true
  /\ insert_message Definitive.messages_insert db (Some 1%N) in_channel
     = Ok (with_messages db [in_channel] [])
  /\ holds (InitialSchema.messages_insert db (Some 1%N) in_channel) = false
  /\ Messages.user_id direct <> Some 1%N
  /\ CanPostMessage db 1 direct = true
  /\ insert_message Definitive.messages_insert db (Some 1%N) direct
     = Ok (with_messages db [direct]
             [{| DmParticipants.user1_id := Some 1%N;
                 DmParticipants.user2_id := Some 2%N;
                 DmParticipants.last_message_at := 20 |}])
  /\ holds (InitialSchema.messages_insert db (Some 1%N) direct) = false.
Proof.
  cbv zeta. repeat split; try reflexivity; discriminate.
Qed.

(* ================================================================== *)
(** ** The canonical key                                                *)
(* ================================================================== *)

Lemma LEAST_comm (x y : option uuid) : LEAST x y = LEAST y x.
Proof.
  destruct x as [a|], y as [b|]; simpl; try reflexivity.
  now rewrite N.min_comm.
Qed.

Lemma GREATEST_comm (x y : option uuid) : GREATEST x y = GREATEST y x.
Proof.
  destruct x as [a|], y as [b|]; simpl; try reflexivity.
  now rewrite N.max_comm.
Qed.

(** C6: the key of a conversation does not depend on the order in which
    the two users are given, and it is (min, max) of the two ids; the
    symmetry also holds when an id is NULL. *)
Theorem canonicalKey_symmetric :
  (forall a b : uuid,
      canonicalKey (Some a) (Some b) = canonicalKey (Some b) (Some a)
      /\ canonicalKey (Some a) (Some b) = (Some (N.min a b), Some (N.max a b)))
  /\ (forall x y : option uuid, canonicalKey x y = canonicalKey y x).
Proof.
  assert (H : forall x y : option uuid, canonicalKey x y = canonicalKey y x).
  { intros x y. unfold canonicalKey.
    now rewrite (LEAST_comm x y), (GREATEST_comm x y). }
  split; [|exact H].
  intros a b. split; [apply H | reflexivity].
Qed.

(* ================================================================== *)
(** ** The messages table and its target constraint                     *)
(* ================================================================== *)

Lemma check_message_target_iff (m : Messages.row) :
  check_passes (check_message_target m) = true <-> has_one_target m.
Proof.
  unfold check_message_target, has_one_target.
  destruct (Messages.channel_id m), (Messages.recipient_id m); simpl;
    intuition congruence.
Qed.

Lemma Append_Ok_inv (ms ms' : list Messages.row) (m : Messages.row) :
  Append ms m = Ok ms' -> has_one_target m /\ ms' = ms ++ [m].
Proof.
  unfold Append.
  destruct (check_passes (check_message_target m)) eqn:E; [|discriminate].
  destruct (existsb _ ms); [discriminate|].
  intros [= <-]. split; [now apply check_message_target_iff | reflexivity].
Qed.

Lemma Append_invalid (ms : list Messages.row) (m : Messages.row) :
  ~ has_one_target m -> Append ms m = Error InvalidTarget.
Proof.
  intros H. unfold Append.
  destruct (check_passes (check_message_target m)) eqn:E; [|reflexivity].
  apply check_message_target_iff in E. contradiction.
Qed.

(** The whole INSERT statement, under any INSERT policy. *)
Section AnyInsertPolicy.

Variable policy : database -> option uuid -> Messages.row -> sqlbool.
Variables (db : database) (uid : option uuid) (m : Messages.row).

(** It refuses a row with no target or two as well, with the policy's
    error or with the constraint's. *)
Lemma insert_message_invalid :
  ~ has_one_target m ->
  exists e, insert_message policy db uid m = Error e.
Proof.
  intros H. unfold insert_message.
  destruct (holds (policy db uid m)); [|eauto].
  rewrite (Append_invalid _ _ H). simpl. eauto.
Qed.

(** What it commits keeps every stored message on exactly one target. *)
Lemma insert_message_keeps_targets (db' : database) :
  Forall has_one_target (messages db) ->
  insert_message policy db uid m = Ok db' ->
  Forall has_one_target (messages db').
Proof.
  intros Hall. unfold insert_message.
  destruct (holds (policy db uid m)); [|discriminate].
  destruct (Append (messages db) m) as [ms|e] eqn:EA; [|discriminate].
  simpl. destruct (update_dm_participants _ _ _) as [dms|e]; [|discriminate].
  simpl. intros [= <-]. simpl.
  apply Append_Ok_inv in EA. destruct EA as (Hm & ->).
  apply Forall_app. split; [assumption | now constructor].
Qed.

(** Past the policy and the table, the statement is the trigger. *)
Lemma insert_message_after_append (ms : list Messages.row) :
  holds (policy db uid m) = true ->
  Append (messages db) m = Ok ms ->
  insert_message policy db uid m
  = (dms <- update_dm_participants uid (direct_message_participants db) m ;;
     Ok (with_messages db ms dms)).
Proof.
  intros Hp HA. unfold insert_message. now rewrite Hp, HA.
Qed.

End AnyInsertPolicy.

(** C7, as the code has it: every row of the message log has exactly one
    of channel_id and recipient_id, because an insert that succeeds keeps it
    so and an insert of a row with both or with neither never succeeds, the
    database staying as it was.  The refusal is InvalidTarget (the violation
    of check_message_target) at the table, and for the whole statement
    exactly when the INSERT policy lets the row through; otherwise it is the
    policy's row-level-security error, which comes first.  Under the
    definitive policy a row with neither target is always refused by the
    policy, and a row with both targets sent in the caller's own name is
    refused with InvalidTarget.  sendMessage with both ids or with neither
    changes nothing. *)
Theorem insert_message_exactly_one_target
    (db : database) (uid : option uuid) (m : Messages.row) :
  (Forall has_one_target (messages db) ->
   forall policy db',
     insert_message policy db uid m = Ok db' ->
     Forall has_one_target (messages db'))
  /\ (~ has_one_target m ->
      Append (messages db) m = Error InvalidTarget
      /\ (forall policy,
            commit db (insert_message policy db uid m) = db
            /\ insert_message policy db uid m
               = if holds (policy db uid m) then Error InvalidTarget
                 else Error (rls_violation "messages"))
      /\ (Messages.channel_id m = None ->
          insert_message Definitive.messages_insert db uid m
          = Error (rls_violation "messages"))
      /\ (Messages.channel_id m <> None ->
          uid <> None -> Messages.user_id m = uid ->
          insert_message Definitive.messages_insert db uid m
          = Error InvalidTarget))
  /\ (forall policy user channelId recipientId content default_id now,
        (channelId = None <-> recipientId = None) ->
        sendMessage policy db user channelId recipientId content
          default_id now = db).
Proof.
  split; [|split].
  - intros Hall policy db' H.
    exact (insert_message_keeps_targets policy db uid m db' Hall H).
  - intros Hm.
    assert (Hany : forall policy,
               insert_message policy db uid m
               = if holds (policy db uid m) then Error InvalidTarget
                 else Error (rls_violation "messages")).
    { intros policy. unfold insert_message.
      destruct (holds (policy db uid m)); [|reflexivity].
      now rewrite (Append_invalid _ _ Hm). }
    split; [now apply Append_invalid|]. split; [|split].
    + intros policy. split; [|apply Hany].
      rewrite Hany. now destruct (holds (policy db uid m)).
    + intros Hc. rewrite Hany.
      assert (Hr : Messages.recipient_id m = None).
      { destruct (Messages.recipient_id m) eqn:Er; [|reflexivity].
        exfalso. apply Hm. right. split; [assumption | congruence]. }
      unfold Definitive.messages_insert. now rewrite Hc, Hr.
    + intros Hc Hu Ha. rewrite Hany.
      destruct (Messages.recipient_id m) as [r|] eqn:Er.
      * destruct uid as [u|]; [|congruence].
        unfold Definitive.messages_insert.
        rewrite Ha, Er.
        destruct (Messages.channel_id m) as [c|]; [|congruence].
        unfold sql_eq at 1. rewrite N.eqb_refl.
        cbn [is_not_null]. 
        destruct (is_channel_member db (Some c) (Some u)),
                 (sql_eq (Some u) (Some r)) as [[|]|]; reflexivity.
      * exfalso. apply Hm. left. split; [assumption | exact Er].
  - intros policy user channelId recipientId content default_id now Hboth.
    unfold sendMessage. destruct user as [u|]; [|reflexivity].
    unfold insert_message.
    destruct (holds _); [|reflexivity].
    rewrite Append_invalid; [reflexivity|].
    unfold has_one_target. simpl. intros [[H1 H2]|[H1 H2]].
    + apply H1. now apply Hboth.
    + apply H2. now apply Hboth.
Qed.

Lemma insert_message_exactly_one_target_witness :
  Forall has_one_target
    (messages
       (with_messages general_db
          (messages general_db ++ [channel_message 102 2 7 30])
          (direct_message_participants general_db)))
  /\ Append (messages general_db)
       {| Messages.id := 103; Messages.content := "both";
          Messages.user_id := Some 2%N; Messages.channel_id := Some 7%N;
          Messages.recipient_id := Some 1%N; Messages.created_at := 30 |}
     = Error InvalidTarget
  /\ insert_message Definitive.messages_insert general_db (Some 2%N)
       {| Messages.id := 103; Messages.content := "both";
          Messages.user_id := Some 2%N; Messages.channel_id := Some 7%N;
          Messages.recipient_id := Some 1%N; Messages.created_at := 30 |}
     = Error InvalidTarget
  /\ insert_message Definitive.messages_insert general_db (Some 2%N)
       {| Messages.id := 104; Messages.content := "neither";
          Messages.user_id := Some 2%N; Messages.channel_id := None;
          Messages.recipient_id := None; Messages.created_at := 30 |}
     = Error (rls_violation "messages")
  /\ sendMessage Definitive.messages_insert general_db (Some 2%N)
       (Some 7%N) (Some 1%N) "both" 105 40 = general_db.
Proof.
  split; [|split; [|split; [|split]]].
  - apply (proj1 (insert_message_exactly_one_target general_db (Some 2%N)
                    (channel_message 102 2 7 30)))
      with (policy := Definitive.messages_insert).
    + constructor; [|constructor]. left. simpl. split; congruence.
    + reflexivity.
  - apply (proj2 (insert_message_exactly_one_target general_db (Some 2%N) _)).
    unfold has_one_target. simpl. intuition congruence.
  - apply (proj2 (insert_message_exactly_one_target general_db (Some 2%N) _)).
    + unfold has_one_target. simpl. intuition congruence.
    + simpl. congruence.
    + congruence.
    + reflexivity.
  - apply (proj2 (insert_message_exactly_one_target general_db (Some 2%N) _)).
    + unfold has_one_target. simpl. intuition congruence.
    + reflexivity.
  - apply (proj2 (proj2 (insert_message_exactly_one_target general_db None
                           (channel_message 102 2 7 30)))).
    split; congruence.
Defined.

(** C7 as stated fails on the path the application takes: a row with
    neither target, sent by a member of the general channel in their own
    name, is refused by the INSERT policy with a row-level-security error,
    before check_message_target is looked at; the refusal is not
    InvalidTarget. *)
Lemma neither_target_refused_by_policy :
  ~ has_one_target no_target_message
  /\ insert_message Definitive.messages_insert general_db (Some 2%N)
       no_target_message
     = Error (rls_violation "messages")
  /\ insert_message Definitive.messages_insert general_db (Some 2%N)
       no_target_message
     <> Error InvalidTarget.
Proof.
  split; [|split].
  - unfold has_one_target. simpl. intuition congruence.
  - reflexivity.
  - discriminate.
Qed.
(* ================================================================== *)
(** ** Conversations: the upsert, the trigger and the profiles hook     *)
(* ================================================================== *)


Lemma holds_key (r : DmParticipants.row) (k1 k2 : uuid) :
  holds (sql_and (sql_eq (DmParticipants.user1_id r) (Some k1))
                 (sql_eq (DmParticipants.user2_id r) (Some k2))) = true
  <-> DmParticipants.user1_id r = Some k1 /\ DmParticipants.user2_id r = Some k2.
Proof.
  now rewrite holds_sql_and, andb_true_iff, !holds_sql_eq_Some_r.
Qed.

Lemma dm_conflict_conversation (k1 k2 : uuid) (ts : timestamptz)
    (x : DmParticipants.row) :
  dm_conflict (conversation k1 k2 ts) x = true
  <-> DmParticipants.user1_id x = Some k1 /\ DmParticipants.user2_id x = Some k2.
Proof. unfold dm_conflict. simpl. apply holds_key. Qed.

Lemma is_pair_row_iff (a b : uuid) (r : DmParticipants.row) :
  is_pair_row a b r = true <->
  (DmParticipants.user1_id r = Some a /\ DmParticipants.user2_id r = Some b)
  \/ (DmParticipants.user1_id r = Some b /\ DmParticipants.user2_id r = Some a).
Proof.
  unfold is_pair_row. now rewrite orb_true_iff, !holds_key.
Qed.


Lemma is_pair_row_set_last_message_at (a b : uuid) (ts : timestamptz)
    (r : DmParticipants.row) :
  is_pair_row a b (set_last_message_at ts r) = is_pair_row a b r.
Proof. reflexivity. Qed.









Lemma last_cons_default {A : Type} (l : list A) (x d d' : A) :
  last (x :: l) d = last (x :: l) d'.
Proof.
  revert x. induction l as [|y l IH]; intros x.
  - reflexivity.
  - change (last (y :: l) d = last (y :: l) d'). apply IH.
Qed.

(** When the timestamps never decrease, the last one is the maximum. *)
Lemma max_timestamp_last (t0 : timestamptz) (ts : list timestamptz) :
  Sorted Z.le (t0 :: ts) -> max_timestamp t0 ts = last ts t0.
Proof.
  unfold max_timestamp. revert t0.
  induction ts as [|t ts IH]; intros t0 Hs.
  - reflexivity.
  - inversion Hs as [|? ? Hs' Hhd]; subst. inversion Hhd; subst.
    cbn [fold_left]. rewrite Z.max_r by assumption.
    rewrite IH by assumption.
    destruct ts as [|t1 ts]; [reflexivity|].
    change (last (t :: t1 :: ts) t0) with (last (t1 :: ts) t0).
    apply last_cons_default.
Qed.

(** *** Tables written by the trigger alone *)

Lemma dm_conflict_same_key (r x : DmParticipants.row) :
  canonical_row r -> dm_key x = dm_key r -> dm_conflict r x = true.
Proof.
  intros (lo & hi & H1 & H2 & _) Hk. unfold dm_key in Hk.
  injection Hk as E1 E2. unfold dm_conflict.
  rewrite E1, E2, H1, H2. simpl. now rewrite !N.eqb_refl.
Qed.

Lemma RecordDirectMessage_canonical (dms : list DmParticipants.row)
    (x y : uuid) (ts : timestamptz) :
  x <> y ->
  canonical_table dms ->
  exists dms',
    RecordDirectMessage dms x y ts = Ok dms' /\ canonical_table dms'.
Proof.
  intros Hxy (Hall & Hnd).
  unfold RecordDirectMessage, dm_upsert. cbn [LEAST GREATEST]. cbv zeta.
  change (DmParticipants.Build_row (Some (N.min x y)) (Some (N.max x y)) ts)
    with (conversation (N.min x y) (N.max x y) ts).
  assert (Hlt : (N.min x y < N.max x y)%N) by lia.
  assert (Hcan : canonical_row (conversation (N.min x y) (N.max x y) ts)).
  { exists (N.min x y), (N.max x y). simpl. auto. }
  assert (Hchk : check_passes
                   (check_different_users
                      (conversation (N.min x y) (N.max x y) ts)) = true).
  { unfold check_different_users, sql_neq. simpl.
    assert (E : N.min x y <> N.max x y) by lia.
    apply N.eqb_neq in E. now rewrite E. }
  rewrite Hchk.
  destruct (existsb _ dms) eqn:Hex.
  - eexists. split; [reflexivity|]. split.
    + apply Forall_map. eapply Forall_impl; [|exact Hall].
      intros r Hr. now destruct (dm_conflict _ r).
    + rewrite map_map. erewrite map_ext; [exact Hnd|].
      intros r. now destruct (dm_conflict _ r).
  - eexists. split; [reflexivity|]. split.
    + apply Forall_app. split; [assumption | now constructor].
    + rewrite map_app. simpl.
      eapply Permutation_NoDup; [apply Permutation_cons_append|].
      constructor; [|assumption].
      intros Hin. apply in_map_iff in Hin. destruct Hin as (r & Hk & Hin).
      assert (Hex' : existsb
                       (dm_conflict (conversation (N.min x y) (N.max x y) ts))
                       dms = true).
      { apply existsb_exists. exists r. split; [assumption|].
        now apply dm_conflict_same_key. }
      congruence.
Qed.

(** Such a table holds at most one row for any two users, the canonical
    one. *)
Lemma canonical_table_at_most_one_row (a b : uuid)
    (dms : list DmParticipants.row) :
  canonical_table dms -> at_most_canonical_row a b dms.
Proof.
  intros (Hall & Hnd). unfold at_most_canonical_row.
  induction dms as [|r dms IH].
  - now left.
  - inversion Hall as [|? ? Hr Hall']; subst.
    simpl in Hnd. inversion Hnd as [|? ? Hnot Hnd']; subst.
    specialize (IH Hall' Hnd').
    unfold rows_of_pair in *. simpl.
    destruct (is_pair_row a b r) eqn:Hp; [|exact IH].
    right.
    assert (Hrow : exists t, r = conversation (N.min a b) (N.max a b) t).
    { destruct Hr as (lo & hi & H1 & H2 & Hlt).
      apply is_pair_row_iff in Hp.
      destruct r as [u1 u2 t]. simpl in *. exists t. unfold conversation.
      destruct Hp as [(E1 & E2) | (E1 & E2)]; subst u1 u2;
        injection E1 as <-; injection E2 as <-; f_equal; f_equal; lia. }
    destruct Hrow as (t & ->). exists t.
    destruct IH as [-> | (t' & Hone)]; [reflexivity|].
    exfalso. apply Hnot.
    assert (Hin : In (conversation (N.min a b) (N.max a b) t')
                     (filter (is_pair_row a b) dms))
      by (rewrite Hone; now left).
    apply filter_In in Hin. destruct Hin as (Hin & _).
    apply in_map_iff. exists (conversation (N.min a b) (N.max a b) t').
    split; [reflexivity | assumption].
Qed.

(** The table of the empty database is one of them. *)
Lemma canonical_table_nil : canonical_table [].
Proof. split; constructor. Qed.

(** C4 at a run the code allows, ending with one row per argument order
    for the same two users.  User 2 opens the app first: the profiles hook
    lists user 1, finds no conversation with that user and inserts
    (user.id, profile.id) = (2, 1).  User 1 then writes to user 2: the
    trigger upserts under (LEAST, GREATEST) = (1, 2), the UNIQUE constraint
    on (user1_id, user2_id) sees no conflict with (2, 1), and a second row
    for the same two users is stored. *)
Theorem dm_pair_stored_in_both_orders :
  let after_hook := fetchProfiles_conversations [] 2 [1%N; 2%N] 100 in
  let db := {| channels := []; channel_members := []; messages := [];
               direct_message_participants := after_hook |} in
  let m := direct_message 500 1 2 200 in
  after_hook = [conversation 2 1 100]
  /\ RecordDirectMessage after_hook 1 2 200
     = Ok [conversation 2 1 100; conversation 1 2 200]
  /\ insert_message Definitive.messages_insert db (Some 1%N) m
     = Ok (with_messages db [m] [conversation 2 1 100; conversation 1 2 200])
  /\ rows_of_pair 1 2 [conversation 2 1 100; conversation 1 2 200]
     = [conversation 2 1 100; conversation 1 2 200]
  /\ ~ at_most_canonical_row 1 2 [conversation 2 1 100; conversation 1 2 200].
Proof.
  cbv zeta. repeat split; try reflexivity.
  intros [H | (t & H)]; discriminate.
Qed.

(** The hook by itself keeps to one row: it inserts nothing when it finds
    the conversation in either order. *)
Lemma create_dm_conversation_existing (dms : list DmParticipants.row)
    (user profile : uuid) (now : timestamptz) (r : DmParticipants.row) :
  existingDM (Some user) dms user profile = Some r ->
  create_dm_conversation dms user profile now = dms.
Proof. intros H. unfold create_dm_conversation. now rewrite H. Qed.


(* ================================================================== *)
(** ** A message to oneself                                             *)
(* ================================================================== *)

Lemma dm_upsert_same_user (dms : list DmParticipants.row) (u : uuid)
    (ts : timestamptz) :
  dm_upsert dms (LEAST (Some u) (Some u)) (GREATEST (Some u) (Some u)) ts
  = Error (check_violation "check_different_users").
Proof.
  unfold dm_upsert, check_different_users, sql_neq. simpl.
  rewrite N.min_id, N.max_id, N.eqb_refl. reflexivity.
Qed.

Lemma update_dm_participants_self (uid : option uuid)
    (dms : list DmParticipants.row) (m : Messages.row) (u : uuid) :
  Messages.user_id m = Some u ->
  Messages.recipient_id m = Some u ->
  update_dm_participants uid dms m
  = Error (check_violation "check_different_users")
  \/ update_dm_participants uid dms m
     = Error (rls_violation "direct_message_participants").
Proof.
  intros Ha Hr. unfold update_dm_participants. rewrite Ha, Hr.
  cbn [is_not_null holds]. cbv zeta.
  destruct (holds (Definitive.dm_participants_all uid _)).
  - left. apply dm_upsert_same_user.
  - right. reflexivity.
Qed.

Lemma insert_message_self_error
    (policy : database -> option uuid -> Messages.row -> sqlbool)
    (db : database) (uid : option uuid) (u : uuid) (m : Messages.row) :
  Messages.user_id m = Some u ->
  Messages.recipient_id m = Some u ->
  exists e, insert_message policy db uid m = Error e.
Proof.
  intros Ha Hr. unfold insert_message.
  destruct (holds (policy db uid m)); [|eauto].
  destruct (Append (messages db) m) as [ms|e]; [|simpl; eauto].
  simpl.
  destruct (update_dm_participants_self uid (direct_message_participants db)
              m u Ha Hr) as [-> | ->]; simpl; eauto.
Qed.

(** C10: a message whose recipient is its author is never committed.
    Whatever INSERT policy is in force and whoever issues the statement,
    it ends in an error and the database is what it was: no message row, no
    conversation row.  When the author issues it, the trigger's upsert
    proposes the row (u, u) and check_different_users refuses it; that is
    the error of the whole statement as soon as the definitive policy and
    the table have let the row through. *)
Theorem self_message_never_commits
    (policy : database -> option uuid -> Messages.row -> sqlbool)
    (db : database) (uid : option uuid) (u : uuid) (m : Messages.row) :
  Messages.user_id m = Some u ->
  Messages.recipient_id m = Some u ->
  (exists e, insert_message policy db uid m = Error e)
  /\ commit db (insert_message policy db uid m) = db
  /\ update_dm_participants (Some u) (direct_message_participants db) m
     = Error (check_violation "check_different_users")
  /\ (forall ms', holds (Definitive.messages_insert db uid m) = true ->
                  Append (messages db) m = Ok ms' ->
                  insert_message Definitive.messages_insert db uid m
                  = Error (check_violation "check_different_users")).
Proof.
  intros Ha Hr.
  pose proof (insert_message_self_error policy db uid u m Ha Hr) as H1.
  split; [exact H1|].
  split; [destruct H1 as (e & ->); reflexivity|].
  assert (H3 : update_dm_participants (Some u) (direct_message_participants db) m
               = Error (check_violation "check_different_users")).
  { unfold update_dm_participants. rewrite Ha, Hr.
    cbn [is_not_null holds]. cbv zeta.
    replace (holds (Definitive.dm_participants_all (Some u) _)) with true.
    - apply dm_upsert_same_user.
    - symmetry. unfold Definitive.dm_participants_all. simpl.
      rewrite N.min_id, N.eqb_refl. reflexivity. }
  split; [exact H3|].
  intros ms' Hp HA. unfold insert_message. rewrite Hp, HA. simpl.
  apply Append_Ok_inv in HA. destruct HA as (Hone & _).
  assert (Hc : Messages.channel_id m = None).
  { destruct Hone as [(_ & Hn) | (Hn & _)]; congruence. }
  assert (Hu : uid = Some u).
  { unfold Definitive.messages_insert in Hp. rewrite Ha, Hr, Hc in Hp.
    rewrite holds_sql_or, !holds_sql_and, holds_sql_or in Hp.
    cbn [is_not_null holds andb orb] in Hp.
    rewrite orb_diag in Hp. apply holds_sql_eq in Hp.
    destruct Hp as (c & -> & Hc'). congruence. }
  subst uid. now rewrite H3.
Qed.

Lemma self_message_never_commits_witness :
  (exists e, insert_message Definitive.messages_insert empty_database
               (Some 4%N) (direct_message 600 4 4 50) = Error e)
  /\ commit empty_database
       (insert_message Definitive.messages_insert empty_database
          (Some 4%N) (direct_message 600 4 4 50)) = empty_database
  /\ insert_message Definitive.messages_insert empty_database
       (Some 4%N) (direct_message 600 4 4 50)
     = Error (check_violation "check_different_users").
Proof.
  destruct (self_message_never_commits Definitive.messages_insert
              empty_database (Some 4%N) 4 (direct_message 600 4 4 50)
              eq_refl eq_refl) as (H1 & H2 & _ & H4).
  split; [exact H1|]. split; [exact H2|].
  apply (H4 [direct_message 600 4 4 50]); reflexivity.
Defined.

(** The hook that sends the message therefore leaves the database as it
    was. *)
Lemma sendMessage_to_self
    (policy : database -> option uuid -> Messages.row -> sqlbool)
    (db : database) (u : uuid) (channelId : option uuid) (content : string)
    (default_id : uuid) (now : timestamptz) :
  sendMessage policy db (Some u) channelId (Some u) content default_id now = db.
Proof.
  unfold sendMessage.
  match goal with
  | |- commit db (insert_message policy db (Some u) ?m) = db =>
      destruct (insert_message_self_error policy db (Some u) u m eq_refl eq_refl)
        as (e & ->)
  end.
  reflexivity.
Qed.

(* ================================================================== *)
(** ** Auto-join                                                        *)
(* ================================================================== *)

Lemma member_conflict_iff (r x : ChannelMembers.row) :
  member_conflict r x = true <->
  exists c u, ChannelMembers.channel_id x = Some c
              /\ ChannelMembers.channel_id r = Some c
              /\ ChannelMembers.user_id x = Some u
              /\ ChannelMembers.user_id r = Some u.
Proof.
  unfold member_conflict.
  rewrite holds_sql_and, andb_true_iff, !holds_sql_eq. split.
  - intros ((c & H1 & H2) & (u & H3 & H4)). exists c, u. auto.
  - intros (c & u & H1 & H2 & H3 & H4). split; eauto.
Qed.

Lemma insert_member_do_nothing_appends (tbl : list ChannelMembers.row)
    (r : ChannelMembers.row) :
  exists added, insert_member_do_nothing tbl r = tbl ++ added.
Proof.
  unfold insert_member_do_nothing.
  destruct (existsb (member_conflict r) tbl).
  - exists []. now rewrite app_nil_r.
  - now exists [r].
Qed.

Lemma fold_insert_member_appends (rows tbl : list ChannelMembers.row) :
  exists added, fold_left insert_member_do_nothing rows tbl = tbl ++ added.
Proof.
  revert tbl. induction rows as [|r rows IH]; intros tbl; simpl.
  - exists []. now rewrite app_nil_r.
  - destruct (insert_member_do_nothing_appends tbl r) as (a1 & ->).
    destruct (IH (tbl ++ a1)) as (a2 & ->).
    exists (a1 ++ a2). now rewrite app_assoc.
Qed.

Lemma insert_member_do_nothing_conflict (tbl : list ChannelMembers.row)
    (c u : uuid) (ro : option member_role) :
  let r := {| ChannelMembers.channel_id := Some c;
              ChannelMembers.user_id := Some u;
              ChannelMembers.role := ro |} in
  existsb (member_conflict r) (insert_member_do_nothing tbl r) = true.
Proof.
  cbv zeta. unfold insert_member_do_nothing.
  destruct (existsb _ tbl) eqn:E; [exact E|].
  rewrite existsb_app, E. simpl.
  unfold member_conflict. simpl. now rewrite !N.eqb_refl.
Qed.

Lemma fold_insert_member_keeps_conflict (rows tbl : list ChannelMembers.row)
    (r : ChannelMembers.row) :
  existsb (member_conflict r) tbl = true ->
  existsb (member_conflict r) (fold_left insert_member_do_nothing rows tbl)
  = true.
Proof.
  intros H. destruct (fold_insert_member_appends rows tbl) as (added & ->).
  now rewrite existsb_app, H.
Qed.

Lemma fold_insert_member_noop (rows tbl : list ChannelMembers.row) :
  (forall r, In r rows -> existsb (member_conflict r) tbl = true) ->
  fold_left insert_member_do_nothing rows tbl = tbl.
Proof.
  induction rows as [|r rows IH]; intros H; simpl.
  - reflexivity.
  - unfold insert_member_do_nothing at 2.
    rewrite (H r) by now left.
    apply IH. intros r' Hin. apply H. now right.
Qed.

Lemma auto_join_rows_In (db : database) (NEW_id : uuid)
    (r : ChannelMembers.row) :
  In r (auto_join_rows db NEW_id) <->
  exists c, In c (channels db)
            /\ Channels.is_private c = Some false
            /\ r = {| ChannelMembers.channel_id := Some (Channels.id c);
                      ChannelMembers.user_id := Some NEW_id;
                      ChannelMembers.role := Some member |}.
Proof.
  unfold auto_join_rows. rewrite in_map_iff. split.
  - intros (c & <- & Hin). apply filter_In in Hin. destruct Hin as (Hin & Hp).
    apply holds_is_private_false in Hp. eauto.
  - intros (c & Hin & Hp & ->). exists c. split; [reflexivity|].
    apply filter_In. split; [assumption|]. now apply holds_is_private_false.
Qed.

Lemma fold_insert_member_all_conflict (rows tbl : list ChannelMembers.row) :
  (forall r, In r rows ->
             exists c u ro, r = {| ChannelMembers.channel_id := Some c;
                                   ChannelMembers.user_id := Some u;
                                   ChannelMembers.role := ro |}) ->
  forall r, In r rows ->
    existsb (member_conflict r) (fold_left insert_member_do_nothing rows tbl)
    = true.
Proof.
  revert tbl. induction rows as [|r0 rows IH]; intros tbl Hk r Hin.
  - destruct Hin.
  - simpl. destruct Hin as [<- | Hin].
    + apply fold_insert_member_keeps_conflict.
      destruct (Hk r0 (or_introl eq_refl)) as (c & u & ro & ->).
      apply insert_member_do_nothing_conflict.
    + apply IH; [|assumption]. intros r' Hr'. apply Hk. now right.
Qed.

Lemma auto_join_rows_keyed (db : database) (NEW_id : uuid)
    (r : ChannelMembers.row) :
  In r (auto_join_rows db NEW_id) ->
  exists c u ro, r = {| ChannelMembers.channel_id := Some c;
                        ChannelMembers.user_id := Some u;
                        ChannelMembers.role := ro |}.
Proof.
  intros H. apply auto_join_rows_In in H. destruct H as (c & _ & _ & ->).
  eauto.
Qed.

Lemma has_membership_conflict (db : database) (c u : uuid)
    (ro : option member_role) :
  has_membership db c u <->
  existsb (member_conflict {| ChannelMembers.channel_id := Some c;
                              ChannelMembers.user_id := Some u;
                              ChannelMembers.role := ro |})
          (channel_members db) = true.
Proof.
  unfold has_membership. rewrite existsb_exists. split.
  - intros (cm & Hin & Hc & Hu). exists cm. split; [assumption|].
    apply member_conflict_iff. exists c, u. simpl. auto.
  - intros (cm & Hin & H). apply member_conflict_iff in H.
    destruct H as (c' & u' & H1 & H2 & H3 & H4). simpl in H2, H4.
    exists cm. repeat split; congruence.
Qed.

(** C9: the trigger that runs when a profile is created gives the new user
    a membership row in every channel whose is_private is false at that
    moment; it only appends to the table, so rows that were there are kept
    as they were; for a (channel, user) pair that has a row already the
    insert does nothing; and running the trigger a second time changes
    nothing.  The trigger has no failing path. *)
Theorem auto_join_public_channels_idempotent (db : database) (NEW_id : uuid) :
  let db' := auto_join_public_channels db NEW_id in
  (forall c, In c (channels db) -> Channels.is_private c = Some false ->
             has_membership db' (Channels.id c) NEW_id)
  /\ (exists added, channel_members db' = channel_members db ++ added)
  /\ (forall c ro, has_membership db c NEW_id ->
        insert_member_do_nothing (channel_members db)
          {| ChannelMembers.channel_id := Some c;
             ChannelMembers.user_id := Some NEW_id;
             ChannelMembers.role := ro |}
        = channel_members db)
  /\ auto_join_public_channels db' NEW_id = db'.
Proof.
  cbv zeta. repeat split.
  - intros c Hin Hpub.
    apply (has_membership_conflict _ _ _ (Some member)).
    unfold auto_join_public_channels. cbn [channel_members].
    apply fold_insert_member_all_conflict.
    + apply auto_join_rows_keyed.
    + apply auto_join_rows_In. eauto.
  - unfold auto_join_public_channels. cbn [channel_members].
    apply fold_insert_member_appends.
  - intros c ro Hm. unfold insert_member_do_nothing.
    apply (has_membership_conflict _ _ _ ro) in Hm. now rewrite Hm.
  - unfold auto_join_public_channels at 1.
    change (auto_join_rows (auto_join_public_channels db NEW_id) NEW_id)
      with (auto_join_rows db NEW_id).
    rewrite fold_insert_member_noop.
    + reflexivity.
    + intros r Hin. unfold auto_join_public_channels. cbn [channel_members].
      apply fold_insert_member_all_conflict; [|assumption].
      apply auto_join_rows_keyed.
Qed.

Lemma auto_join_public_channels_idempotent_witness :
  has_membership (auto_join_public_channels design_db 2) 7 2
  /\ insert_member_do_nothing (channel_members design_db) (membership 9 2 member)
     = channel_members design_db.
Proof.
  destruct (auto_join_public_channels_idempotent design_db 2)
    as (Hjoin & _ & Hnoop & _).
  split.
  - apply (Hjoin general_channel); [simpl; auto | reflexivity].
  - apply (Hnoop 9%N (Some member)).
    exists (membership 9 2 member). simpl. auto.
Defined.

(* ================================================================== *)
(** ** The order of fetched messages                                    *)
(* ================================================================== *)

Lemma insert_by_created_at_perm (x : Messages.row) (l : list Messages.row) :
  Permutation (x :: l) (insert_by_created_at x l).
Proof.
  induction l as [|y l IH]; simpl.
  - apply Permutation_refl.
  - destruct (Messages.created_at x <=? Messages.created_at y)%Z.
    + apply Permutation_refl.
    + eapply Permutation_trans; [apply perm_swap|]. now apply perm_skip.
Qed.

Lemma insert_by_created_at_HdRel (x y : Messages.row) (l : list Messages.row) :
  le_created_at y x ->
  HdRel le_created_at y l ->
  HdRel le_created_at y (insert_by_created_at x l).
Proof.
  intros Hyx Hhd. destruct l as [|z l]; simpl.
  - now constructor.
  - destruct (Messages.created_at x <=? Messages.created_at z)%Z.
    + now constructor.
    + inversion Hhd; subst. now constructor.
Qed.

Lemma insert_by_created_at_sorted (x : Messages.row) (l : list Messages.row) :
  Sorted le_created_at l -> Sorted le_created_at (insert_by_created_at x l).
Proof.
  induction l as [|y l IH]; intros Hs; simpl.
  - repeat constructor.
  - destruct (Z.leb_spec (Messages.created_at x) (Messages.created_at y)) as [Hle|Hgt].
    + constructor; [assumption|]. now constructor.
    + inversion Hs as [|? ? Hs' Hhd]; subst.
      constructor; [now apply IH|].
      apply insert_by_created_at_HdRel; [|assumption].
      unfold le_created_at. lia.
Qed.

Lemma order_by_created_at_ordered (rows : list Messages.row) :
  ordered_by_created_at rows (order_by_created_at rows).
Proof.
  unfold ordered_by_created_at, order_by_created_at.
  induction rows as [|x rows (IHp & IHs)]; simpl.
  - split; [apply Permutation_refl | constructor].
  - split.
    + eapply Permutation_trans; [apply perm_skip, IHp|].
      apply insert_by_created_at_perm.
    + now apply insert_by_created_at_sorted.
Qed.

Lemma le_created_at_trans : Relation_Definitions.transitive _ le_created_at.
Proof. unfold le_created_at. intros x y z. lia. Qed.

Lemma lt_created_at_trans : Relation_Definitions.transitive _ lt_created_at.
Proof. unfold lt_created_at. intros x y z. lia. Qed.

(** A list in strictly increasing order of created_at has one ordering
    that is non-decreasing in created_at: itself. *)
Lemma ordered_by_created_at_unique (rows res : list Messages.row) :
  Sorted lt_created_at rows ->
  ordered_by_created_at rows res ->
  res = rows.
Proof.
  intros Hlt (Hperm & Hle).
  apply Sorted_StronglySorted in Hlt; [|exact lt_created_at_trans].
  apply Sorted_StronglySorted in Hle; [|exact le_created_at_trans].
  revert res Hperm Hle.
  induction Hlt as [|a rows Hrows IH Ha]; intros res Hperm Hle.
  - now apply Permutation_nil in Hperm.
  - destruct res as [|h res].
    + apply Permutation_sym, Permutation_nil in Hperm. discriminate.
    + inversion Hle as [|? ? Hres Hh]; subst.
      assert (Hha : h = a).
      { assert (Hin : In h (a :: rows))
          by (eapply Permutation_in; [apply Permutation_sym, Hperm | now left]).
        destruct Hin as [<- | Hin]; [reflexivity|].
        exfalso.
        assert (Hah : lt_created_at a h)
          by (rewrite Forall_forall in Ha; now apply Ha).
        assert (Hin' : In a (h :: res))
          by (eapply Permutation_in; [exact Hperm | now left]).
        destruct Hin' as [-> | Hin'].
        - unfold lt_created_at in Hah. lia.
        - rewrite Forall_forall in Hh. specialize (Hh a Hin').
          unfold lt_created_at, le_created_at in *. lia. }
      subst h. f_equal. apply IH; [|assumption].
      now apply Permutation_cons_inv in Hperm.
Qed.

(** Non-decreasing in created_at, read on the rows or on their
    timestamps. *)
Lemma Sorted_le_created_at_map (l : list Messages.row) :
  Sorted le_created_at l -> Sorted Z.le (map Messages.created_at l).
Proof.
  induction 1 as [|x l Hs IH Hhd]; simpl; constructor; [assumption|].
  destruct Hhd; simpl; constructor. assumption.
Qed.

(** Two non-decreasing arrangements of the same numbers are equal. *)
Lemma Sorted_Zle_unique (k1 k2 : list Z) :
  Permutation k1 k2 -> Sorted Z.le k1 -> Sorted Z.le k2 -> k1 = k2.
Proof.
  intros Hperm H1 H2.
  apply Sorted_StronglySorted in H1; [|intros x y z; apply Z.le_trans].
  apply Sorted_StronglySorted in H2; [|intros x y z; apply Z.le_trans].
  revert k2 Hperm H2.
  induction H1 as [|a k1 Hk1 IH Ha]; intros k2 Hperm H2.
  - now apply Permutation_nil in Hperm.
  - destruct k2 as [|b k2].
    + apply Permutation_sym, Permutation_nil in Hperm. discriminate.
    + inversion H2 as [|? ? Hk2 Hb]; subst.
      assert (Hab : a = b).
      { assert (Hin : In b (a :: k1))
          by (eapply Permutation_in; [apply Permutation_sym, Hperm | now left]).
        assert (Hin' : In a (b :: k2))
          by (eapply Permutation_in; [exact Hperm | now left]).
        rewrite Forall_forall in Ha, Hb.
        destruct Hin as [Hin | Hin]; [congruence|].
        destruct Hin' as [Hin' | Hin']; [congruence|].
        specialize (Ha b Hin). specialize (Hb a Hin'). lia. }
      subst b. f_equal. apply IH; [|assumption].
      now apply Permutation_cons_inv in Hperm.
Qed.

(** All the orderings of the same rows show the same timestamps, one after
    the other: they differ only in how rows of equal created_at follow
    each other. *)
Lemma ordered_by_created_at_same_stamps (rows res1 res2 : list Messages.row) :
  ordered_by_created_at rows res1 ->
  ordered_by_created_at rows res2 ->
  Permutation res1 res2
  /\ map Messages.created_at res1 = map Messages.created_at res2.
Proof.
  intros (Hp1 & Hs1) (Hp2 & Hs2).
  assert (Hp : Permutation res1 res2)
    by (eapply Permutation_trans; [apply Permutation_sym, Hp1 | exact Hp2]).
  split; [assumption|].
  apply Sorted_Zle_unique.
  - now apply Permutation_map.
  - now apply Sorted_le_created_at_map.
  - now apply Sorted_le_created_at_map.
Qed.

Lemma fetchMessages_is_an_answer (db : database) (user : option uuid)
    (channelId recipientId : option uuid) :
  fetchMessages_returns db user channelId recipientId
    (fetchMessages db user channelId recipientId).
Proof.
  unfold fetchMessages_returns, fetchMessages.
  destruct user as [u|]; [|reflexivity].
  destruct channelId as [c|].
  - apply order_by_created_at_ordered.
  - destruct recipientId as [r|]; [|reflexivity].
    apply order_by_created_at_ordered.
Qed.

(** C8, as the hook has it: the fetch always has an answer, the one the
    insertion sort computes among them.  Every answer holds the same rows
    as that one and shows the same timestamps in the same positions, each
    row being no later than every row after it; created_at is the only
    sort key, so answers differ in how rows with equal created_at follow
    each other and in nothing else.  When the stored rows of the target
    carry strictly increasing timestamps the answer is those rows in the
    order in which they were stored. *)
Theorem fetchMessages_ordered_by_created_at (db : database)
    (user : option uuid) (channelId recipientId : option uuid) :
  fetchMessages_returns db user channelId recipientId
    (fetchMessages db user channelId recipientId)
  /\ (forall res,
        fetchMessages_returns db user channelId recipientId res ->
        Permutation (fetchMessages db user channelId recipientId) res
        /\ map Messages.created_at res
           = map Messages.created_at
               (fetchMessages db user channelId recipientId)
        /\ StronglySorted le_created_at res
        /\ (forall u c,
              user = Some u -> channelId = Some c ->
              Sorted lt_created_at (fetchMessages_rows db u (Some c) recipientId) ->
              res = fetchMessages_rows db u (Some c) recipientId)
        /\ (forall u r,
              user = Some u -> channelId = None -> recipientId = Some r ->
              Sorted lt_created_at (fetchMessages_rows db u None (Some r)) ->
              res = fetchMessages_rows db u None (Some r))).
Proof.
  split; [apply fetchMessages_is_an_answer|].
  intros res H.
  assert (Hsame : Permutation (fetchMessages db user channelId recipientId) res
                  /\ map Messages.created_at res
                     = map Messages.created_at
                         (fetchMessages db user channelId recipientId)
                  /\ Sorted le_created_at res).
  { pose proof (fetchMessages_is_an_answer db user channelId recipientId) as H0.
    unfold fetchMessages_returns in H, H0.
    destruct user as [u|];
      [|rewrite H, H0; repeat split; constructor].
    destruct channelId as [c|].
    - destruct (ordered_by_created_at_same_stamps _ _ _ H0 H) as (Hp & Hm).
      split; [assumption|]. split; [now symmetry | apply H].
    - destruct recipientId as [r|];
        [|rewrite H, H0; repeat split; constructor].
      destruct (ordered_by_created_at_same_stamps _ _ _ H0 H) as (Hp & Hm).
      split; [assumption|]. split; [now symmetry | apply H]. }
  destruct Hsame as (Hp & Hm & Hs).
  split; [assumption|]. split; [assumption|]. split; [|split].
  - apply Sorted_StronglySorted; [exact le_created_at_trans | assumption].
  - intros u c -> -> Hlt. simpl in H.
    now apply ordered_by_created_at_unique.
  - intros u r -> -> -> Hlt. simpl in H.
    now apply ordered_by_created_at_unique.
Qed.

Lemma fetchMessages_ordered_by_created_at_witness :
  (fetchMessages busy_db (Some 1%N) (Some 7%N) None
   = [channel_message 2 1 7 10; channel_message 3 1 7 20;
      channel_message 1 1 7 20; channel_message 4 1 7 30]
   /\ map Messages.created_at
        [channel_message 2 1 7 10; channel_message 1 1 7 20;
         channel_message 3 1 7 20; channel_message 4 1 7 30]
      = map Messages.created_at
          (fetchMessages busy_db (Some 1%N) (Some 7%N) None)
   /\ StronglySorted le_created_at
        [channel_message 2 1 7 10; channel_message 1 1 7 20;
         channel_message 3 1 7 20; channel_message 4 1 7 30])
  /\ fetchMessages ordered_db (Some 1%N) (Some 7%N) None
     = [channel_message 1 1 7 10; channel_message 3 2 7 20;
        channel_message 5 1 7 30]
  /\ fetchMessages ordered_db (Some 1%N) None (Some 2%N)
     = [direct_message 2 1 2 15; direct_message 4 2 1 25].
Proof.
  split; [|split].
  - destruct (fetchMessages_ordered_by_created_at busy_db (Some 1%N)
                (Some 7%N) None) as (_ & H).
    assert (Hret : fetchMessages_returns busy_db (Some 1%N) (Some 7%N) None
                     [channel_message 2 1 7 10; channel_message 1 1 7 20;
                      channel_message 3 1 7 20; channel_message 4 1 7 30]).
    { split.
      - change (fetchMessages_rows busy_db 1 (Some 7%N) None)
          with [channel_message 4 1 7 30; channel_message 2 1 7 10;
                channel_message 3 1 7 20; channel_message 1 1 7 20].
        apply Permutation_trans
          with (l' := [channel_message 2 1 7 10; channel_message 4 1 7 30;
                       channel_message 3 1 7 20; channel_message 1 1 7 20]);
          [apply perm_swap|]. apply perm_skip.
        apply Permutation_trans
          with (l' := [channel_message 3 1 7 20; channel_message 4 1 7 30;
                       channel_message 1 1 7 20]);
          [apply perm_swap|].
        apply Permutation_trans
          with (l' := [channel_message 3 1 7 20; channel_message 1 1 7 20;
                       channel_message 4 1 7 30]);
          [apply perm_skip, perm_swap | apply perm_swap].
      - repeat constructor; unfold le_created_at; simpl; lia. }
    split; [reflexivity|]. split; apply (H _ Hret).
  - apply (proj1 (proj2 (proj2 (proj2
             (proj2 (fetchMessages_ordered_by_created_at ordered_db
                       (Some 1%N) (Some 7%N) None) _
                (proj1 (fetchMessages_ordered_by_created_at ordered_db
                          (Some 1%N) (Some 7%N) None))))))
           1%N 7%N eq_refl eq_refl).
    repeat constructor; unfold lt_created_at; simpl; lia.
  - apply (proj2 (proj2 (proj2 (proj2
             (proj2 (fetchMessages_ordered_by_created_at ordered_db
                       (Some 1%N) None (Some 2%N)) _
                (proj1 (fetchMessages_ordered_by_created_at ordered_db
                          (Some 1%N) None (Some 2%N)))))))
           1%N 2%N eq_refl eq_refl eq_refl).
    repeat constructor; unfold lt_created_at; simpl; lia.
Defined.

(** C8 as stated fails: both rows of channel 7 carry created_at = 10, the
    query may answer them in stored order, ids 2 then 1 (the insertion sort
    does), and that answer is not ordered by (created_at, id). *)
Lemma fetchMessages_ties_not_ordered_by_id :
  let res := [channel_message 2 1 7 10; channel_message 1 1 7 10] in
  fetchMessages_returns tie_db (Some 1%N) (Some 7%N) None res
  /\ order_by_created_at (fetchMessages_rows tie_db 1 (Some 7%N) None) = res
  /\ ~ Sorted le_created_at_id res.
Proof.
  cbv zeta. split; [|split].
  - simpl. split; [apply Permutation_refl|].
    repeat constructor; unfold le_created_at; simpl; lia.
  - reflexivity.
  - intros H. inversion H as [|? ? _ Hhd]; subst.
    inversion Hhd as [|? ? Hle]; subst.
    unfold le_created_at_id in Hle. simpl in Hle. lia.
Qed.

(* ================================================================== *)
(** ** Conversations written by the trigger, and what the log keeps     *)
(* ================================================================== *)

(** X2: however many direct messages the trigger records, between whichever
    distinct users and in whichever order, a table that was canonical stays
    canonical: no pair of users ever gets a second row. *)
Theorem trigger_alone_keeps_one_row_per_pair
    (calls : list (uuid * uuid * timestamptz)) (dms : list DmParticipants.row) :
  canonical_table dms ->
  Forall (fun c => fst (fst c) <> snd (fst c)) calls ->
  exists dms',
    RecordDirectMessages dms calls = Ok dms'
    /\ canonical_table dms'
    /\ forall a b, at_most_canonical_row a b dms'.
Proof.
  intros Hcan Hall. revert dms Hcan.
  induction Hall as [|[[x y] ts] calls Hxy Hall IH]; intros dms Hcan.
  - exists dms. split; [reflexivity|]. split; [assumption|].
    intros a b. now apply canonical_table_at_most_one_row.
  - simpl in Hxy.
    destruct (RecordDirectMessage_canonical dms x y ts Hxy Hcan)
      as (d & Hd & Hcan').
    destruct (IH d Hcan') as (d' & Hrun & Hres).
    exists d'. split; [|exact Hres].
    simpl. now rewrite Hd.
Qed.

Lemma trigger_alone_keeps_one_row_per_pair_witness :
  exists dms',
    RecordDirectMessages []
      [(1%N, 2%N, 5%Z); (3%N, 1%N, 6%Z); (2%N, 1%N, 7%Z)] = Ok dms'
    /\ canonical_table dms'
    /\ forall a b, at_most_canonical_row a b dms'.
Proof.
  apply trigger_alone_keeps_one_row_per_pair.
  - apply canonical_table_nil.
  - repeat apply Forall_cons; try apply Forall_nil; simpl; discriminate.
Defined.

(** A run of the trigger stops at the first message that a user addresses
    to themselves, and nothing after it is recorded. *)
Lemma RecordDirectMessages_self_call (dms : list DmParticipants.row)
    (u : uuid) (ts : timestamptz)
    (rest : list (uuid * uuid * timestamptz)) :
  RecordDirectMessages dms ((u, u, ts) :: rest)
  = Error (check_violation "check_different_users").
Proof.
  simpl. unfold RecordDirectMessage. now rewrite dm_upsert_same_user.
Qed.


(** What the statement with its foreign keys commits, the statement
    without them commits too, and the profiles are as before. *)
Lemma insert_message_with_keys_Done
    (policy : database -> option uuid -> Messages.row -> sqlbool)
    (s s' : server) (uid : option uuid) (m : Messages.row) :
  insert_message_with_keys policy s uid m = Done s' ->
  insert_message policy (data s) uid m = Ok (data s')
  /\ profiles s' = profiles s.
Proof.
  unfold insert_message_with_keys, insert_message.
  destruct (holds _); [|discriminate].
  destruct (Append _ _) as [ms|e]; [|discriminate].
  destruct (references_profile _ (Messages.user_id m)); [|discriminate].
  destruct (references_channel _ _); [|discriminate].
  destruct (references_profile _ (Messages.recipient_id m)); [|discriminate].
  simpl. destruct (update_dm_participants _ _ _) as [dms|e]; [|discriminate].
  intros [= <-]. split; reflexivity.
Qed.



Lemma dm_upsert_Ok_keys (dms dms' : list DmParticipants.row)
    (u1 u2 : option uuid) (ts : timestamptz) :
  dm_upsert dms u1 u2 ts = Ok dms' ->
  sql_neq u1 u2 <> Some false
  /\ map dm_key dms' = map dm_key dms ++
                       (if existsb (dm_conflict
                                      {| DmParticipants.user1_id := u1;
                                         DmParticipants.user2_id := u2;
                                         DmParticipants.last_message_at := ts |})
                                   dms
                        then [] else [(u1, u2)])
  /\ In (u1, u2) (map dm_key dms').
Proof.
  unfold dm_upsert, check_different_users. cbn [DmParticipants.user1_id
    DmParticipants.user2_id].
  destruct (sql_neq u1 u2) as [[|]|] eqn:Hne; cbn [check_passes];
    try discriminate.
  - destruct (existsb _ dms) eqn:Hex; intros [= <-].
    + assert (Hk : map dm_key
                     (map (fun x => if dm_conflict
                                         {| DmParticipants.user1_id := u1;
                                            DmParticipants.user2_id := u2;
                                            DmParticipants.last_message_at := ts |} x
                                    then set_last_message_at ts x else x) dms)
                   = map dm_key dms).
      { rewrite map_map. apply map_ext. intros x.
        now destruct (dm_conflict _ x). }
      rewrite Hk, app_nil_r. split; [discriminate|]. split; [reflexivity|].
      apply existsb_exists in Hex. destruct Hex as (x & Hin & Hx).
      unfold dm_conflict in Hx. cbn [DmParticipants.user1_id
        DmParticipants.user2_id] in Hx.
      rewrite holds_sql_and, andb_true_iff, !holds_sql_eq in Hx.
      destruct Hx as ((c1 & H1 & ->) & (c2 & H2 & ->)).
      apply in_map_iff. exists x. split; [|assumption].
      unfold dm_key. now rewrite H1, H2.
    + rewrite map_app. split; [discriminate|]. split; [reflexivity|].
      apply in_or_app. right. now left.
  - destruct (existsb _ dms) eqn:Hex; intros [= <-].
    + exfalso. apply existsb_exists in Hex. destruct Hex as (x & _ & Hx).
      unfold dm_conflict in Hx. cbn [DmParticipants.user1_id
        DmParticipants.user2_id] in Hx.
      rewrite holds_sql_and, andb_true_iff, !holds_sql_eq in Hx.
      destruct Hx as ((c1 & _ & ->) & (c2 & _ & ->)).
      unfold sql_neq in Hne. simpl in Hne. discriminate.
    + rewrite map_app. split; [discriminate|]. split; [reflexivity|].
      apply in_or_app. right. now left.
Qed.

Lemma dm_recorded_more_keys (dms dms' : list DmParticipants.row)
    (m : Messages.row) :
  (forall k, In k (map dm_key dms) -> In k (map dm_key dms')) ->
  dm_recorded dms m -> dm_recorded dms' m.
Proof.
  intros Hsub Hrec b Hb. destruct (Hrec b Hb) as (a & Ha & Hab & Hin).
  exists a. auto.
Qed.

Lemma update_dm_participants_Ok (uid : option uuid)
    (dms dms' : list DmParticipants.row) (m : Messages.row) :
  update_dm_participants uid dms m = Ok dms' ->
  (forall k, In k (map dm_key dms) -> In k (map dm_key dms'))
  /\ dm_recorded dms' m.
Proof.
  unfold update_dm_participants.
  destruct (Messages.recipient_id m) as [b|] eqn:Hr; cbn [is_not_null holds].
  - cbv zeta. destruct (holds _); [|discriminate].
    intros H. apply dm_upsert_Ok_keys in H. destruct H as (Hne & Hk & Hin).
    split.
    + intros k Hk'. rewrite Hk. apply in_or_app. now left.
    + intros b' Hb'. rewrite Hr in Hb'. injection Hb' as <-.
      destruct (Messages.user_id m) as [a|]; cbn [LEAST GREATEST] in *.
      * exists a. split; [reflexivity|]. split; [|assumption].
        intros ->. apply Hne. unfold sql_neq. simpl.
        now rewrite N.min_id, N.max_id, N.eqb_refl.
      * exfalso. apply Hne. unfold sql_neq. simpl. now rewrite N.eqb_refl.
  - intros [= <-]. split; [auto|]. intros b Hb. congruence.
Qed.

Lemma insert_message_Ok_inv
    (policy : database -> option uuid -> Messages.row -> sqlbool)
    (db db' : database) (uid : option uuid) (m : Messages.row) :
  insert_message policy db uid m = Ok db' ->
  exists dms',
    holds (policy db uid m) = true
    /\ Append (messages db) m = Ok (messages db ++ [m])
    /\ update_dm_participants uid (direct_message_participants db) m = Ok dms'
    /\ db' = with_messages db (messages db ++ [m]) dms'.
Proof.
  unfold insert_message.
  destruct (holds (policy db uid m)); [|discriminate].
  destruct (Append (messages db) m) as [ms|e] eqn:HA; [|discriminate].
  simpl.
  destruct (update_dm_participants _ _ _) as [dms'|e] eqn:HT; [|discriminate].
  simpl. intros [= <-].
  pose proof (Append_Ok_inv _ _ _ HA) as (_ & ->).
  exists dms'. auto.
Qed.

Lemma create_dm_conversation_appends (dms : list DmParticipants.row)
    (user profile : uuid) (now : timestamptz) :
  exists added, create_dm_conversation dms user profile now = dms ++ added.
Proof.
  unfold create_dm_conversation, dm_insert.
  destruct (existingDM _ _ _ _).
  - exists []. now rewrite app_nil_r.
  - destruct (holds _); [|exists []; now rewrite app_nil_r].
    destruct (check_passes _); [|exists []; now rewrite app_nil_r].
    destruct (existsb _ _); [exists []; now rewrite app_nil_r|].
    simpl. eauto.
Qed.

Lemma fetchProfiles_conversations_appends (dms : list DmParticipants.row)
    (user : uuid) (profiles : list uuid) (now : timestamptz) :
  exists added,
    fetchProfiles_conversations dms user profiles now = dms ++ added.
Proof.
  unfold fetchProfiles_conversations.
  generalize (filter (fun p => negb (N.eqb p user)) profiles) as ps.
  intros ps. revert dms. induction ps as [|p ps IH]; intros dms; simpl.
  - exists []. now rewrite app_nil_r.
  - destruct (create_dm_conversation_appends dms user p now) as (a1 & ->).
    destruct (IH (dms ++ a1)) as (a2 & ->).
    exists (a1 ++ a2). now rewrite app_assoc.
Qed.

Lemma db_step_log_consistent (db db' : database) :
  db_step db db' -> log_consistent db -> log_consistent db'.
Proof.
  intros Hstep (Hone & Hrec & Hnd).
  destruct Hstep as [policy uid NEW db' H | NEW_id | user profiles now].
  - apply insert_message_Ok_inv in H.
    destruct H as (dms' & _ & HA & HT & ->).
    apply update_dm_participants_Ok in HT. destruct HT as (Hsub & Hnew).
    unfold log_consistent. cbn [with_messages messages
      direct_message_participants].
    split; [|split].
    + apply Forall_app. split; [assumption|].
      constructor; [|constructor]. now apply (Append_Ok_inv _ _ _ HA).
    + apply Forall_app. split.
      * eapply Forall_impl; [|exact Hrec].
        intros m. now apply dm_recorded_more_keys.
      * now constructor.
    + rewrite map_app. simpl.
      eapply Permutation_NoDup; [apply Permutation_cons_append|].
      constructor; [|assumption].
      unfold Append in HA.
      destruct (check_passes _); [|discriminate].
      destruct (existsb _ (messages db)) eqn:Hex; [discriminate|].
      intros Hin. apply in_map_iff in Hin. destruct Hin as (x & Hx & Hin).
      assert (existsb (fun x => N.eqb (Messages.id x) (Messages.id NEW))
                      (messages db) = true).
      { apply existsb_exists. exists x. split; [assumption|].
        now apply N.eqb_eq. }
      congruence.
  - exact (conj Hone (conj Hrec Hnd)).
  - unfold log_consistent. cbn [with_conversations messages
      direct_message_participants].
    split; [assumption|]. split; [|assumption].
    destruct (fetchProfiles_conversations_appends
                (direct_message_participants db) user profiles now)
      as (added & ->).
    eapply Forall_impl; [|exact Hrec].
    intros m. apply dm_recorded_more_keys.
    intros k Hk. rewrite map_app. apply in_or_app. now left.
Qed.

(** X1: whatever the application has written so far, in whatever order and
    under whichever INSERT policy: every stored message has exactly one
    target, message ids are distinct, and every stored direct message has
    an author, who is not its recipient, and a conversation row under the
    canonical key of the two. *)
Theorem reachable_log_consistent (db : database) :
  reachable db -> log_consistent db.
Proof.
  induction 1 as [db Hempty | db db' _ IH Hstep].
  - unfold log_consistent. rewrite Hempty. repeat split; constructor.
  - now apply (db_step_log_consistent db db').
Qed.

Lemma reachable_log_consistent_witness :
  log_consistent
    (with_messages empty_database [direct_message 700 2 1 40]
       [conversation 1 2 40]).
Proof.
  apply reachable_log_consistent.
  apply (reachable_step empty_database).
  - now apply reachable_fresh.
  - apply (step_insert_message empty_database Definitive.messages_insert
             (Some 2%N) (direct_message 700 2 1 40)).
    reflexivity.
Defined.

(* ================================================================== *)
(** ** Joining and leaving channels under the definitive policies       *)
(* ================================================================== *)

Lemma holds_sql_eq_refl (u : uuid) : holds (sql_eq (Some u) (Some u)) = true.
Proof. apply holds_sql_eq_Some_l. reflexivity. Qed.

Lemma has_membership_row (db : database) (cm : ChannelMembers.row) (c u : uuid) :
  In cm (channel_members db) ->
  ChannelMembers.channel_id cm = Some c ->
  ChannelMembers.user_id cm = Some u ->
  has_membership db c u.
Proof. intros Hin Hc Hu. exists cm. auto. Qed.

(** A membership row of the table that names its channel is readable by
    the members of that channel and by nobody else. *)
Lemma channel_members_readable_by_members_aux (db : database) (u : uuid)
    (cm : ChannelMembers.row) :
  In cm (channel_members db) ->
  forall c, ChannelMembers.channel_id cm = Some c ->
    (holds (DefinitiveRest.channel_members_readable db (Some u) cm) = true
     <-> has_membership db c u).
Proof.
  intros Hin c Hc.
  unfold DefinitiveRest.channel_members_readable,
    DefinitiveRest.channel_members_select,
    DefinitiveRest.channel_members_all.
  rewrite holds_sql_or, orb_true_iff, holds_Some, holds_sql_eq_Some_l, Hc,
    is_channel_member_iff.
  split; [|now left].
  intros [Hm | Hu]; [assumption|]. exists cm. auto.
Qed.

(** X9: the membership rows a user can read are the rows of the channels the
    user belongs to, plus the user's own rows; for a row that names its
    channel the second kind is among the first, so a user reads the member
    list of a channel exactly when the user is one of its members - also
    when the channel is public. *)
Theorem channel_members_readable_by_members (db : database) (u : uuid)
    (cm : ChannelMembers.row) :
  (holds (DefinitiveRest.channel_members_readable db (Some u) cm) = true <->
   (exists c, ChannelMembers.channel_id cm = Some c /\ has_membership db c u)
   \/ ChannelMembers.user_id cm = Some u)
  /\ (In cm (channel_members db) ->
      forall c, ChannelMembers.channel_id cm = Some c ->
        (holds (DefinitiveRest.channel_members_readable db (Some u) cm) = true
         <-> has_membership db c u)).
Proof.
  assert (H : holds (DefinitiveRest.channel_members_readable db (Some u) cm)
              = true <->
              (exists c, ChannelMembers.channel_id cm = Some c
                         /\ has_membership db c u)
              \/ ChannelMembers.user_id cm = Some u).
  { unfold DefinitiveRest.channel_members_readable,
      DefinitiveRest.channel_members_select,
      DefinitiveRest.channel_members_all.
    rewrite holds_sql_or, orb_true_iff, holds_Some, holds_sql_eq_Some_l.
    destruct (ChannelMembers.channel_id cm) as [c|].
    - rewrite is_channel_member_iff. split.
      + intros [Hm | Hu]; [left; eauto | now right].
      + intros [(c' & [= <-] & Hm) | Hu]; [now left | now right].
    - rewrite is_channel_member_null_channel. split.
      + intros [Hm | Hu]; [discriminate | now right].
      + intros [(c' & Hc & _) | Hu]; [discriminate | now right]. }
  split; [exact H|].
  intros Hin c Hc. rewrite H. split.
  - intros [(c' & Hc' & Hm) | Hu].
    + congruence.
    + now apply (has_membership_row db cm).
  - intros Hm. left. eauto.
Qed.

Lemma channel_members_readable_by_members_witness :
  holds (DefinitiveRest.channel_members_readable design_db (Some 3%N)
           (membership 9 1 admin)) = true
  <-> has_membership design_db 9 3.
Proof.
  apply (proj2 (channel_members_readable_by_members design_db 3
                  (membership 9 1 admin))).
  - simpl. auto.
  - reflexivity.
Defined.

Lemma is_channel_member_app (db : database) (cms : list ChannelMembers.row)
    (c u : option uuid) :
  is_channel_member (with_channel_members db cms) c u
  = existsb
      (fun cm =>
         holds (sql_and (sql_eq (ChannelMembers.channel_id cm) c)
                        (sql_eq (ChannelMembers.user_id cm) u)))
      cms.
Proof. reflexivity. Qed.

(** X4: any user can enrol themselves in any existing channel, private ones
    included, with any role: the policy only asks that the row carries the
    user's own id.  The insert commits, and from then on the user may view
    the channel and view and post its messages. *)
Theorem join_opens_any_channel (s : server) (u : uuid) (c : Channels.row)
    (ro : option member_role) :
  In c (channels (data s)) ->
  references_profile (profiles s) (Some u) = true ->
  ~ has_membership (data s) (Channels.id c) u ->
  let r := {| ChannelMembers.channel_id := Some (Channels.id c);
              ChannelMembers.user_id := Some u;
              ChannelMembers.role := ro |} in
  exists s',
    insert_channel_member s (Some u) r = Done s'
    /\ profiles s' = profiles s
    /\ channel_members (data s') = channel_members (data s) ++ [r]
    /\ CanViewChannel (data s') u c = true
    /\ (forall m, Messages.channel_id m = Some (Channels.id c) ->
                  Messages.recipient_id m = None ->
                  CanViewMessage (data s') u m = true
                  /\ CanPostMessage (data s') u m = true).
Proof.
  intros Hin Hprof Hnot r.
  assert (Hfresh : existsb (member_conflict r) (channel_members (data s))
                   = false).
  { destruct (existsb _ _) eqn:E; [|reflexivity].
    exfalso. apply Hnot.
    now apply (has_membership_conflict _ _ _ ro). }
  assert (Hfk : references_channel (data s) (Some (Channels.id c)) = true).
  { simpl. apply existsb_exists. exists c. split; [assumption|].
    apply N.eqb_refl. }
  exists {| profiles := profiles s;
            data := with_channel_members (data s)
                      (channel_members (data s) ++ [r]) |}.
  split.
  { unfold insert_channel_member, DefinitiveRest.channel_members_all.
    rewrite Hfresh.
    change (ChannelMembers.user_id r) with (Some u).
    change (ChannelMembers.channel_id r) with (Some (Channels.id c)).
    now rewrite holds_sql_eq_refl, Hfk, Hprof. }
  cbn [profiles data].
  assert (Hmem : is_channel_member
                   (with_channel_members (data s)
                      (channel_members (data s) ++ [r]))
                   (Some (Channels.id c)) (Some u) = true).
  { rewrite is_channel_member_app, existsb_app. apply orb_true_iff. right.
    subst r. simpl. now rewrite !N.eqb_refl. }
  split; [reflexivity|]. split; [reflexivity|]. split.
  - apply CanViewChannel_iff. right. now apply is_channel_member_iff.
  - intros m Hc Hr. split.
    + unfold CanViewMessage. now rewrite messages_select_channel, Hc.
    + unfold CanPostMessage, Definitive.messages_insert.
      rewrite Hc, holds_sql_or, holds_sql_and, holds_Some, Hmem.
      reflexivity.
Qed.

Lemma join_opens_any_channel_witness :
  exists s',
    insert_channel_member
      {| profiles := [{| Profiles.id := 3; Profiles.full_name := "U3";
                         Profiles.avatar_url := None;
                         Profiles.status := Some offline |}];
         data := design_db |}
      (Some 3%N) (membership 9 3 admin) = Done s'
    /\ CanViewChannel design_db 3 design_channel = false
    /\ CanViewChannel (data s') 3 design_channel = true.
Proof.
  destruct (join_opens_any_channel
              {| profiles := [{| Profiles.id := 3; Profiles.full_name := "U3";
                                 Profiles.avatar_url := None;
                                 Profiles.status := Some offline |}];
                 data := design_db |}
              3 design_channel (Some admin))
    as (s' & Hs & _ & _ & Hv & _).
  - simpl. auto.
  - reflexivity.
  - intros (cm & Hin & Hc & Hu). simpl in Hin.
    destruct Hin as [<- | [<- | []]]; discriminate.
  - exists s'. split; [exact Hs|]. split; [reflexivity | exact Hv].
Defined.

(** X5: what the insert refuses, the server staying as it was: a row for
    somebody else (or for nobody), by the policy; a second row for a pair
    that has one, by the UNIQUE constraint; a row for a channel that does
    not exist, by the foreign key. *)
Theorem join_refusals (s : server) (u : uuid) (r : ChannelMembers.row) :
  (ChannelMembers.user_id r <> Some u ->
   insert_channel_member s (Some u) r
   = Failed (raised (rls_violation "channel_members")))
  /\ (forall c, ChannelMembers.user_id r = Some u ->
                ChannelMembers.channel_id r = Some c ->
                has_membership (data s) c u ->
                insert_channel_member s (Some u) r
                = Failed (raised (unique_violation
                                    "channel_members_channel_id_user_id_key")))
  /\ (forall c, ChannelMembers.user_id r = Some u ->
                ChannelMembers.channel_id r = Some c ->
                ~ has_membership (data s) c u ->
                (forall x, In x (channels (data s)) -> Channels.id x <> c) ->
                insert_channel_member s (Some u) r
                = Failed (foreign_key_violation
                            "channel_members_channel_id_fkey")).
Proof.
  unfold insert_channel_member, DefinitiveRest.channel_members_all.
  split; [|split].
  - intros Hu.
    destruct (holds (sql_eq (Some u) (ChannelMembers.user_id r))) eqn:E;
      [|reflexivity].
    apply holds_sql_eq_Some_l in E. contradiction.
  - intros c Hu Hc Hm. rewrite Hu, holds_sql_eq_refl.
    destruct r as [rc ru ro]. simpl in Hu, Hc. subst rc ru.
    apply (has_membership_conflict _ _ _ ro) in Hm. now rewrite Hm.
  - intros c Hu Hc Hnot Hmissing. rewrite Hu, holds_sql_eq_refl.
    destruct r as [rc ru ro]. simpl in Hu, Hc. subst rc ru.
    destruct (existsb (member_conflict _) _) eqn:E.
    + exfalso. apply Hnot. now apply (has_membership_conflict _ _ _ ro).
    + cbn [ChannelMembers.channel_id references_channel].
      destruct (existsb (fun x => N.eqb (Channels.id x) c)
                        (channels (data s))) eqn:Ec; [|reflexivity].
      exfalso. apply existsb_exists in Ec. destruct Ec as (x & Hin & Hx).
      apply N.eqb_eq in Hx. now apply (Hmissing x).
Qed.

Lemma join_refusals_witness :
  let s := {| profiles := []; data := design_db |} in
  insert_channel_member s (Some 3%N) (membership 9 2 member)
  = Failed (raised (rls_violation "channel_members"))
  /\ insert_channel_member s (Some 2%N) (membership 9 2 admin)
     = Failed (raised (unique_violation
                         "channel_members_channel_id_user_id_key"))
  /\ insert_channel_member s (Some 2%N) (membership 55 2 member)
     = Failed (foreign_key_violation "channel_members_channel_id_fkey").
Proof.
  cbv zeta. split; [|split].
  - apply (proj1 (join_refusals _ 3 (membership 9 2 member))). discriminate.
  - apply (proj1 (proj2 (join_refusals _ 2 (membership 9 2 admin))) 9%N);
      try reflexivity.
    exists (membership 9 2 member). simpl. auto.
  - apply (proj2 (proj2 (join_refusals _ 2 (membership 55 2 member))) 55%N);
      try reflexivity.
    + intros (cm & Hin & Hc & Hu). simpl in Hin.
      destruct Hin as [<- | [<- | []]]; discriminate.
    + intros x Hin. simpl in Hin.
      destruct Hin as [<- | [<- | []]]; discriminate.
Defined.

Lemma filter_filter_implied {A : Type} (p q : A -> bool) (l : list A) :
  (forall x, q x = true -> p x = true) ->
  filter q (filter p l) = filter q l.
Proof.
  intros H. induction l as [|x l IH]; simpl.
  - reflexivity.
  - destruct (q x) eqn:Eq.
    + rewrite (H x Eq). simpl. rewrite Eq. now f_equal.
    + destruct (p x); simpl; rewrite ?Eq; exact IH.
Qed.

(** X7: whatever WHERE clause a user sends with a DELETE on channel_members,
    no row of another user goes, no row is added or changed, and no other
    table is touched. *)
Theorem delete_spares_other_users (db : database) (u : uuid)
    (cond : ChannelMembers.row -> sqlbool) :
  let db' := delete_channel_members db (Some u) cond in
  filter (fun cm => negb (holds (sql_eq (Some u) (ChannelMembers.user_id cm))))
         (channel_members db')
  = filter (fun cm => negb (holds (sql_eq (Some u) (ChannelMembers.user_id cm))))
           (channel_members db)
  /\ (forall cm, In cm (channel_members db') -> In cm (channel_members db))
  /\ channels db' = channels db
  /\ messages db' = messages db
  /\ direct_message_participants db' = direct_message_participants db.
Proof.
  cbv zeta. unfold delete_channel_members.
  cbn [with_channel_members channel_members channels messages
       direct_message_participants].
  split; [|split; [|auto]].
  - apply filter_filter_implied. intros cm Hq.
    apply negb_true_iff in Hq.
    unfold DefinitiveRest.channel_members_all.
    now rewrite Hq, andb_false_r.
  - intros cm Hin. now apply filter_In in Hin.
Qed.

Lemma leave_filter (db : database) (u c : uuid) (cm : ChannelMembers.row) :
  holds (membership_of c u cm)
  && holds (DefinitiveRest.channel_members_all (Some u) cm)
  && holds (DefinitiveRest.channel_members_readable db (Some u) cm)
  = holds (membership_of c u cm).
Proof.
  destruct (holds (membership_of c u cm)) eqn:E; [|reflexivity].
  unfold membership_of in E.
  rewrite holds_sql_and, andb_true_iff, !holds_sql_eq_Some_r in E.
  destruct E as (_ & Hu).
  unfold DefinitiveRest.channel_members_readable,
    DefinitiveRest.channel_members_all.
  rewrite holds_sql_or, Hu, holds_sql_eq_refl, orb_true_r. reflexivity.
Qed.

Lemma leave_members (db : database) (u c : uuid) :
  channel_members (delete_channel_members db (Some u) (membership_of c u))
  = filter (fun cm => negb (holds (membership_of c u cm))) (channel_members db).
Proof.
  unfold delete_channel_members. cbn [with_channel_members channel_members].
  apply filter_ext. intros cm. now rewrite leave_filter.
Qed.

Lemma holds_membership_of (c u : uuid) (cm : ChannelMembers.row) :
  holds (membership_of c u cm) = true <->
  ChannelMembers.channel_id cm = Some c /\ ChannelMembers.user_id cm = Some u.
Proof.
  unfold membership_of.
  now rewrite holds_sql_and, andb_true_iff, !holds_sql_eq_Some_r.
Qed.

(** X6: leaving a channel removes the user's membership of that channel and
    nothing else: every other (channel, user) pair is a member afterwards
    exactly if it was before, and a channel that is not public is no longer
    visible to the user who left. *)
Theorem leave_revokes_membership (db : database) (u c : uuid) :
  let db' := delete_channel_members db (Some u) (membership_of c u) in
  ~ has_membership db' c u
  /\ (forall c' u', c' <> c \/ u' <> u ->
                    (has_membership db' c' u' <-> has_membership db c' u'))
  /\ (forall ch, Channels.id ch = c ->
                 Channels.is_private ch <> Some false ->
                 CanViewChannel db' u ch = false).
Proof.
  cbv zeta.
  assert (Hnot : ~ has_membership
                     (delete_channel_members db (Some u) (membership_of c u))
                     c u).
  { intros (cm & Hin & Hc & Hu). rewrite leave_members in Hin.
    apply filter_In in Hin. destruct Hin as (_ & Hf).
    apply negb_true_iff in Hf.
    assert (holds (membership_of c u cm) = true)
      by (apply holds_membership_of; auto).
    congruence. }
  split; [exact Hnot|]. split.
  - intros c' u' Hdiff. unfold has_membership. rewrite leave_members. split.
    + intros (cm & Hin & Hc & Hu). apply filter_In in Hin. exists cm. tauto.
    + intros (cm & Hin & Hc & Hu). exists cm. repeat split; try assumption.
      apply filter_In. split; [assumption|]. apply negb_true_iff.
      destruct (holds (membership_of c u cm)) eqn:E; [|reflexivity].
      apply holds_membership_of in E. destruct E as (Hc' & Hu').
      destruct Hdiff; congruence.
  - intros ch Hid Hpriv.
    destruct (CanViewChannel _ u ch) eqn:E; [|reflexivity].
    apply CanViewChannel_iff in E. rewrite Hid in E.
    destruct E; contradiction.
Qed.

Lemma leave_revokes_membership_witness :
  CanViewChannel design_db 2 design_channel = true
  /\ CanViewChannel
       (delete_channel_members design_db (Some 2%N) (membership_of 9 2))
       2 design_channel = false
  /\ (has_membership
        (delete_channel_members design_db (Some 2%N) (membership_of 9 2)) 9 1
      <-> has_membership design_db 9 1).
Proof.
  destruct (leave_revokes_membership design_db 2 9) as (_ & Hkeep & Hpriv).
  split; [reflexivity|]. split.
  - apply Hpriv; [reflexivity | discriminate].
  - apply Hkeep. right. discriminate.
Defined.

Lemma filter_all_true {A : Type} (p : A -> bool) (l : list A) :
  (forall x, In x l -> p x = true) -> filter p l = l.
Proof.
  intros H. induction l as [|x l IH]; simpl.
  - reflexivity.
  - rewrite H by now left. f_equal. apply IH. intros y Hy. apply H. now right.
Qed.

(** X8: joining a channel and leaving it again gives back the database as it
    was before the join. *)
Theorem join_then_leave (s s' : server) (u c : uuid) (ro : option member_role) :
  ~ has_membership (data s) c u ->
  insert_channel_member s (Some u)
    {| ChannelMembers.channel_id := Some c;
       ChannelMembers.user_id := Some u;
       ChannelMembers.role := ro |} = Done s' ->
  delete_channel_members (data s') (Some u) (membership_of c u) = data s
  /\ profiles s' = profiles s.
Proof.
  intros Hnot. unfold insert_channel_member.
  destruct (holds _); [|discriminate].
  destruct (existsb _ _); [discriminate|].
  destruct (references_channel _ _); [|discriminate].
  destruct (references_profile _ _); [|discriminate].
  intros [= <-]. cbn [profiles data]. split; [|reflexivity].
  unfold delete_channel_members.
  assert (Hf : filter
                 (fun cm =>
                    negb (holds (membership_of c u cm)
                          && holds (DefinitiveRest.channel_members_all (Some u) cm)
                          && holds (DefinitiveRest.channel_members_readable
                                      (with_channel_members (data s)
                                         (channel_members (data s) ++
                                          [{| ChannelMembers.channel_id := Some c;
                                              ChannelMembers.user_id := Some u;
                                              ChannelMembers.role := ro |}]))
                                      (Some u) cm)))
                 (channel_members (data s) ++
                  [{| ChannelMembers.channel_id := Some c;
                      ChannelMembers.user_id := Some u;
                      ChannelMembers.role := ro |}])
               = channel_members (data s)).
  { erewrite filter_ext; [|intros cm; rewrite leave_filter; reflexivity].
    rewrite filter_app. simpl. unfold membership_of at 2. simpl.
    rewrite !N.eqb_refl. simpl. rewrite app_nil_r.
    apply filter_all_true. intros cm Hin. apply negb_true_iff.
    destruct (holds (membership_of c u cm)) eqn:E; [|reflexivity].
    exfalso. apply Hnot. apply holds_membership_of in E.
    destruct E. now apply (has_membership_row (data s) cm). }
  cbn [with_channel_members channel_members] in *.
  rewrite Hf. destruct (data s). reflexivity.
Qed.

Lemma join_then_leave_witness :
  delete_channel_members
    (with_channel_members design_db
       (channel_members design_db ++ [membership 7 2 member]))
    (Some 2%N) (membership_of 7 2) = design_db.
Proof.
  refine (proj1 (join_then_leave
                   {| profiles := [{| Profiles.id := 2;
                                      Profiles.full_name := "U2";
                                      Profiles.avatar_url := None;
                                      Profiles.status := None |}];
                      data := design_db |}
                   {| profiles := [{| Profiles.id := 2;
                                      Profiles.full_name := "U2";
                                      Profiles.avatar_url := None;
                                      Profiles.status := None |}];
                      data := with_channel_members design_db
                                (channel_members design_db
                                 ++ [membership 7 2 member]) |}
                   2 7 (Some member) _ _)).
  - intros (cm & Hin & Hc & Hu). simpl in Hin.
    destruct Hin as [<- | [<- | []]]; discriminate.
  - reflexivity.
Defined.

(* ================================================================== *)
(** ** Helpers of the earlier migrations                                *)
(* ================================================================== *)

Lemma can_view_channel_iff (db : database) (u c : uuid) :
  can_view_channel db (Some u) (Some c) = true <->
  exists ch, In ch (channels db)
             /\ Channels.id ch = c
             /\ (Channels.is_private ch = Some false
                 \/ (Channels.is_private ch = Some true
                     /\ has_membership db c u)).
Proof.
  unfold can_view_channel. rewrite existsb_exists. split.
  - intros (ch & Hin & H). exists ch. split; [assumption|].
    rewrite holds_sql_and, andb_true_iff, holds_sql_eq_Some_r in H.
    destruct H as ([= Hid] & H).
    split; [assumption|].
    rewrite holds_sql_or, orb_true_iff, holds_sql_and, andb_true_iff,
      holds_Some, holds_is_private_false in H.
    destruct H as [Hpub | (Hpriv & Hm)]; [now left | right].
    rewrite Hid, is_channel_member_iff in Hm. split; [|assumption].
    destruct (Channels.is_private ch) as [[|]|]; simpl in Hpriv;
      congruence.
  - intros (ch & Hin & Hid & H). exists ch. split; [assumption|].
    rewrite holds_sql_and, andb_true_iff, holds_sql_eq_Some_r. split.
    + now rewrite Hid.
    + rewrite holds_sql_or, orb_true_iff, holds_sql_and, andb_true_iff,
        holds_Some, holds_is_private_false, Hid, is_channel_member_iff.
      destruct H as [Hpub | (Hpriv & Hm)]; [now left | right].
      rewrite Hpriv. auto.
Qed.

Lemma select_is_private_missing (db : database) (c : uuid) :
  (forall ch, In ch (channels db) -> Channels.id ch <> c) ->
  select_is_private db (Some c) = None.
Proof.
  unfold select_is_private. intros H.
  induction (channels db) as [|d l IH]; simpl.
  - reflexivity.
  - destruct (N.eqb_spec (Channels.id d) c) as [E|E].
    + exfalso. apply (H d); [now left | exact E].
    + apply IH. intros ch Hin. apply H. now right.
Qed.

(** X20: the two SECURITY DEFINER helpers of the recursion fixes compared, on a
    channels table with distinct ids: whoever can_view_channel lets in,
    can_access_channel lets in; for a channel of the table whose is_private
    is not NULL they agree with each other and with the definitive policy
    on channels; but a channel whose is_private is NULL, and a channel id
    that is not in the table, are never viewable by can_view_channel, while
    can_access_channel lets the holders of a membership row in. *)
Theorem can_view_channel_vs_can_access_channel (db : database) (u : uuid) :
  NoDup (map Channels.id (channels db)) ->
  (forall c, can_view_channel db (Some u) (Some c) = true ->
             can_access_channel db (Some c) (Some u) = true)
  /\ (forall ch, In ch (channels db) -> Channels.is_private ch <> None ->
        can_view_channel db (Some u) (Some (Channels.id ch))
        = can_access_channel db (Some (Channels.id ch)) (Some u)
        /\ can_view_channel db (Some u) (Some (Channels.id ch))
           = CanViewChannel db u ch)
  /\ (forall ch, In ch (channels db) -> Channels.is_private ch = None ->
        can_view_channel db (Some u) (Some (Channels.id ch)) = false
        /\ can_access_channel db (Some (Channels.id ch)) (Some u)
           = is_channel_member db (Some (Channels.id ch)) (Some u))
  /\ (forall c, (forall ch, In ch (channels db) -> Channels.id ch <> c) ->
        can_view_channel db (Some u) (Some c) = false
        /\ can_access_channel db (Some c) (Some u)
           = is_channel_member db (Some c) (Some u)).
Proof.
  intros Hnd.
  assert (Huniq : forall ch ch', In ch (channels db) -> In ch' (channels db) ->
                    Channels.id ch = Channels.id ch' ->
                    Channels.is_private ch = Channels.is_private ch').
  { intros ch ch' Hin Hin' Hid.
    rewrite <- (select_is_private_found db ch Hin Hnd).
    rewrite <- (select_is_private_found db ch' Hin' Hnd).
    now rewrite Hid. }
  assert (Hfound : forall ch, In ch (channels db) ->
            (can_view_channel db (Some u) (Some (Channels.id ch)) = true <->
             Channels.is_private ch = Some false
             \/ (Channels.is_private ch = Some true
                 /\ has_membership db (Channels.id ch) u))).
  { intros ch Hin. rewrite can_view_channel_iff. split.
    - intros (ch' & Hin' & Hid & H).
      now rewrite (Huniq ch ch' Hin Hin' (eq_sym Hid)).
    - intros H. exists ch. auto. }
  split; [|split; [|split]].
  - intros c Hv. apply can_view_channel_iff in Hv.
    destruct Hv as (ch & Hin & <- & H).
    apply can_access_channel_iff.
    rewrite (select_is_private_found db ch Hin Hnd). tauto.
  - intros ch Hin Hknown.
    assert (E : can_view_channel db (Some u) (Some (Channels.id ch))
                = CanViewChannel db u ch).
    { apply eq_true_iff_eq. rewrite (Hfound ch Hin), CanViewChannel_iff.
      destruct (Channels.is_private ch) as [[|]|]; [| |contradiction];
        intuition congruence. }
    split; [|exact E]. rewrite E. symmetry.
    apply eq_true_iff_eq.
    rewrite can_access_channel_iff, CanViewChannel_iff.
    now rewrite (select_is_private_found db ch Hin Hnd).
  - intros ch Hin Hnull. split.
    + destruct (can_view_channel _ _ _) eqn:E; [|reflexivity].
      apply (Hfound ch Hin) in E. rewrite Hnull in E.
      destruct E as [E | (E & _)]; discriminate.
    + unfold can_access_channel.
      now rewrite (select_is_private_found db ch Hin Hnd), Hnull.
  - intros c Hmissing. split.
    + destruct (can_view_channel _ _ _) eqn:E; [|reflexivity].
      apply can_view_channel_iff in E. destruct E as (ch & Hin & Hid & _).
      exfalso. now apply (Hmissing ch).
    + unfold can_access_channel.
      now rewrite (select_is_private_missing db c Hmissing).
Qed.

Lemma can_view_channel_vs_can_access_channel_witness :
  can_view_channel undecided_db (Some 1%N) (Some 11%N) = false
  /\ can_access_channel undecided_db (Some 11%N) (Some 1%N) = true
  /\ can_view_channel undecided_db (Some 1%N) (Some 7%N)
     = can_access_channel undecided_db (Some 7%N) (Some 1%N).
Proof.
  assert (Hnd : NoDup (map Channels.id (channels undecided_db))).
  { simpl. repeat constructor; simpl; intuition discriminate. }
  destruct (can_view_channel_vs_can_access_channel undecided_db 1 Hnd)
    as (_ & Hknown & Hnull & _).
  destruct (Hnull undecided_channel) as (Hv & Ha);
    [simpl; auto | reflexivity |].
  destruct (Hknown general_channel) as (He & _);
    [simpl; auto | discriminate |].
  split; [exact Hv|]. split; [|exact He].
  exact (eq_trans Ha eq_refl).
Defined.

(* ================================================================== *)
(** ** The hooks                                                        *)
(* ================================================================== *)

Lemma js_eq_true (x : option uuid) (y : uuid) : js_eq x y = true <-> x = Some y.
Proof.
  destruct x as [a|]; simpl.
  - rewrite N.eqb_eq. split; congruence.
  - split; discriminate.
Qed.

Lemma dm_event_accepted_iff (user peer : uuid) (m : Messages.row) :
  dm_event_accepted user peer m = true <->
  (Messages.user_id m = Some user /\ Messages.recipient_id m = Some peer)
  \/ (Messages.user_id m = Some peer /\ Messages.recipient_id m = Some user).
Proof.
  unfold dm_event_accepted.
  now rewrite orb_true_iff, !andb_true_iff, !js_eq_true.
Qed.

Lemma fetchMessages_rows_In (db : database) (user : uuid)
    (channelId recipientId : option uuid) (m : Messages.row) :
  In m (fetchMessages_rows db user channelId recipientId) <->
  In m (messages db)
  /\ holds (Definitive.messages_select db (Some user) m) = true
  /\ holds (fetchMessages_where user channelId recipientId m) = true.
Proof.
  unfold fetchMessages_rows, visible_messages. rewrite !filter_In. tauto.
Qed.

(** X12: on a database the application has written, the rows the DM query
    fetches for (user, peer) are exactly the stored rows that the live DM
    subscription would accept: loading a conversation and receiving it
    live show the same messages. *)
Theorem dm_fetch_matches_live_filter (db : database) (user peer : uuid)
    (m : Messages.row) :
  log_consistent db ->
  In m (messages db) ->
  (In m (fetchMessages_rows db user None (Some peer)) <->
   dm_event_accepted user peer m = true).
Proof.
  intros (Hone & Hrec & _) Hin.
  rewrite Forall_forall in Hone, Hrec.
  specialize (Hone m Hin). specialize (Hrec m Hin).
  rewrite fetchMessages_rows_In, dm_event_accepted_iff.
  cbn [fetchMessages_where].
  rewrite !holds_sql_and, !andb_true_iff, !holds_sql_or, !orb_true_iff,
    !holds_sql_eq_Some_r.
  split.
  - intros (_ & Hvis & Hnull & Hau & Hre).
    assert (Hc : Messages.channel_id m = None)
      by (destruct (Messages.channel_id m); [discriminate | reflexivity]).
    apply messages_select_direct in Hvis; [|assumption].
    destruct Hvis as (_ & Hparty).
    destruct (Messages.recipient_id m) as [b|] eqn:Hb;
      [|destruct Hre; discriminate].
    destruct (Hrec b Hb) as (a & Ha & Hab & _).
    rewrite Ha in *.
    destruct Hau as [[= ->] | [= ->]]; destruct Hre as [[= ->] | [= ->]];
      try contradiction; auto.
  - intros Hacc.
    assert (Hr : Messages.recipient_id m <> None)
      by (destruct Hacc as [(_ & H) | (_ & H)]; congruence).
    assert (Hc : Messages.channel_id m = None).
    { destruct Hone as [(_ & H) | (H & _)]; [contradiction | assumption]. }
    split; [assumption|]. split.
    + apply messages_select_direct; [assumption|]. split; [assumption|].
      destruct Hacc as [(H & _) | (_ & H)]; auto.
    + rewrite Hc. split; [reflexivity|].
      destruct Hacc as [(H1 & H2) | (H1 & H2)]; auto.
Qed.

Lemma one_message_log_consistent :
  log_consistent
    (with_messages empty_database [direct_message 700 2 1 40]
       [conversation 1 2 40]).
Proof.
  split; [|split]; simpl.
  - apply Forall_cons; [|apply Forall_nil]. right. simpl. split; congruence.
  - apply Forall_cons; [|apply Forall_nil].
    intros b Hb. simpl in Hb. injection Hb as <-.
    exists 2%N. simpl. split; [reflexivity|]. split; [discriminate | now left].
  - apply NoDup_cons; [intros [] | apply NoDup_nil].
Qed.

Lemma dm_fetch_matches_live_filter_witness :
  In (direct_message 700 2 1 40)
     (fetchMessages_rows
        (with_messages empty_database [direct_message 700 2 1 40]
           [conversation 1 2 40]) 1 None (Some 2%N))
  <-> dm_event_accepted 1 2 (direct_message 700 2 1 40) = true.
Proof.
  apply dm_fetch_matches_live_filter.
  - exact one_message_log_consistent.
  - simpl. auto.
Defined.

(** *** The last message of a conversation *)

Lemma fold_left_max_spec (l : list Z) (a : Z) :
  (a <= fold_left Z.max l a)%Z
  /\ Forall (fun x => (x <= fold_left Z.max l a)%Z) l
  /\ (fold_left Z.max l a = a \/ In (fold_left Z.max l a) l).
Proof.
  revert a. induction l as [|x l IH]; intros a; simpl.
  - split; [lia|]. split; [constructor | now left].
  - destruct (IH (Z.max a x)) as (H1 & H2 & H3).
    split; [lia|]. split.
    + constructor; [lia | assumption].
    + destruct H3 as [H3 | H3]; [|auto].
      rewrite H3. destruct (Z.max_spec a x) as [(_ & ->) | (_ & ->)]; auto.
Qed.

Lemma desc_leb_refl (x : option timestamptz) : desc_leb x x = true.
Proof. destruct x; simpl; [apply Z.leb_refl | reflexivity]. Qed.

Lemma desc_leb_total (x y : option timestamptz) :
  desc_leb x y = false -> desc_leb y x = true.
Proof.
  destruct x as [a|], y as [b|]; simpl; try congruence.
  intros H. apply Z.leb_gt in H. apply Z.leb_le. lia.
Qed.

Lemma before_desc_trans : Relation_Definitions.transitive _ before_desc.
Proof.
  unfold before_desc. intros x y z.
  destruct (LastMessage.created_at x), (LastMessage.created_at y),
           (LastMessage.created_at z); simpl; try congruence.
  rewrite !Z.leb_le. lia.
Qed.

Lemma insert_desc_perm (x : LastMessage.row) (l : list LastMessage.row) :
  Permutation (x :: l) (insert_desc x l).
Proof.
  induction l as [|y l IH]; simpl.
  - apply Permutation_refl.
  - destruct (desc_leb _ _).
    + apply Permutation_refl.
    + eapply Permutation_trans; [apply perm_swap|]. now apply perm_skip.
Qed.

Lemma insert_desc_sorted (x : LastMessage.row) (l : list LastMessage.row) :
  Sorted before_desc l -> Sorted before_desc (insert_desc x l).
Proof.
  induction l as [|y l IH]; intros Hs; simpl.
  - repeat constructor.
  - destruct (desc_leb (LastMessage.created_at x) (LastMessage.created_at y))
      eqn:E.
    + constructor; [assumption|]. now constructor.
    + apply desc_leb_total in E.
      inversion Hs as [|? ? Hs' Hhd]; subst.
      constructor; [now apply IH|].
      destruct l as [|z l]; simpl.
      * now constructor.
      * destruct (desc_leb (LastMessage.created_at x) (LastMessage.created_at z)).
        -- now constructor.
        -- inversion Hhd; subst. now constructor.
Qed.

Lemma order_by_created_at_desc_ordered (rows : list LastMessage.row) :
  ordered_by_created_at_desc rows (order_by_created_at_desc rows).
Proof.
  unfold ordered_by_created_at_desc, order_by_created_at_desc.
  induction rows as [|x rows (IHp & IHs)]; simpl.
  - split; [apply Permutation_refl | constructor].
  - split.
    + eapply Permutation_trans; [apply perm_skip, IHp|].
      apply insert_desc_perm.
    + now apply insert_desc_sorted.
Qed.

(** The row an answer starts with is one of the rows and may stand before
    each of them. *)
Lemma ordered_by_created_at_desc_head (rows res : list LastMessage.row)
    (r : LastMessage.row) :
  ordered_by_created_at_desc rows res ->
  hd_error res = Some r ->
  In r rows /\ Forall (before_desc r) rows.
Proof.
  intros (Hperm & Hsort) Hr.
  destruct res as [|h res]; [discriminate|]. injection Hr as ->.
  split.
  - eapply Permutation_in; [apply Permutation_sym, Hperm | now left].
  - apply Sorted_StronglySorted in Hsort; [|exact before_desc_trans].
    inversion Hsort as [|? ? _ Hall]; subst.
    eapply Permutation_Forall; [apply Permutation_sym, Hperm|].
    constructor; [apply desc_leb_refl | exact Hall].
Qed.

Lemma has_null_created_at_true (rows : list LastMessage.row) :
  has_null_created_at rows = true
  <-> exists r, In r rows /\ LastMessage.created_at r = None.
Proof.
  unfold has_null_created_at. rewrite existsb_exists.
  split; intros (r & Hin & H); exists r; split; try assumption.
  - now destruct (LastMessage.created_at r).
  - now rewrite H.
Qed.

Lemma timestamps_In (rows : list LastMessage.row) (t : timestamptz) :
  In t (timestamps rows)
  <-> exists r, In r rows /\ LastMessage.created_at r = Some t.
Proof.
  unfold timestamps. rewrite in_flat_map.
  split; intros (r & Hin & H); exists r; split; try assumption.
  - destruct (LastMessage.created_at r) as [t'|]; [|destruct H].
    destruct H as [-> | []]. reflexivity.
  - rewrite H. now left.
Qed.

(** The time of the row that may stand before every other. *)
Lemma latest_or_null_first (rows : list LastMessage.row) (r : LastMessage.row) :
  In r rows ->
  Forall (before_desc r) rows ->
  latest_or_null rows = LastMessage.created_at r.
Proof.
  intros Hin Hall. unfold latest_or_null.
  rewrite Forall_forall in Hall. unfold before_desc in Hall.
  destruct (LastMessage.created_at r) as [a|] eqn:Er.
  - assert (Hno : has_null_created_at rows = false).
    { destruct (has_null_created_at rows) eqn:E; [|reflexivity].
      apply has_null_created_at_true in E. destruct E as (x & Hx & Hnull).
      specialize (Hall x Hx). rewrite Hnull in Hall. discriminate. }
    rewrite Hno.
    assert (Ha : In a (timestamps rows))
      by (apply timestamps_In; now exists r).
    assert (Hle : forall t, In t (timestamps rows) -> (t <= a)%Z).
    { intros t Ht. apply timestamps_In in Ht. destruct Ht as (x & Hx & Et).
      specialize (Hall x Hx). rewrite Et in Hall. simpl in Hall.
      now apply Z.leb_le. }
    destruct (timestamps rows) as [|t ts]; [destruct Ha|].
    f_equal.
    destruct (fold_left_max_spec ts t) as (H1 & H2 & H3).
    rewrite Forall_forall in H2.
    apply Z.le_antisymm.
    + destruct H3 as [-> | H3]; apply Hle; [now left | now right].
    + destruct Ha as [<- | Ha]; [assumption | now apply H2].
  - replace (has_null_created_at rows) with true; [reflexivity|].
    symmetry. apply has_null_created_at_true. now exists r.
Qed.

Lemma latest_or_null_select (rows : list Messages.row) :
  latest_or_null (map select_content_created_at rows) = latest_created_at rows.
Proof.
  unfold latest_or_null.
  assert (Hno : has_null_created_at (map select_content_created_at rows) = false).
  { unfold has_null_created_at. induction rows; simpl; auto. }
  assert (Hts : timestamps (map select_content_created_at rows)
                = map Messages.created_at rows).
  { clear Hno. unfold timestamps. induction rows as [|m rows IH]; [reflexivity|].
    cbn [map flat_map select_content_created_at LastMessage.created_at app].
    f_equal. exact IH. }
  rewrite Hno, Hts. now destruct rows.
Qed.

(** X13: the last-message query of the profiles hook always has an answer;
    it is null exactly when no row was selected; otherwise it is one of the
    selected rows, and one that the descending order lets stand first.  So
    the time the hook shows is null when there is no row or when some row
    has a NULL created_at (NULLs come first in descending order), and
    otherwise the greatest created_at, whichever row the database picks
    among equals.  On the rows of the model, which all carry a created_at,
    it is the greatest created_at of the messages the user can read in the
    conversation. *)
Theorem lastMessage_is_latest :
  (forall rows : list LastMessage.row,
     lastMessage_of rows (hd_error (order_by_created_at_desc rows))
     /\ (forall lastMessage,
           lastMessage_of rows lastMessage ->
           (lastMessage = None <-> rows = [])
           /\ (forall r, lastMessage = Some r ->
                         In r rows /\ Forall (before_desc r) rows)
           /\ lastMessageTime lastMessage = latest_or_null rows
           /\ (lastMessageTime lastMessage = None
               <-> rows = []
                   \/ exists r, In r rows /\ LastMessage.created_at r = None)))
  /\ (forall (db : database) (user profile : uuid) lastMessage,
        lastMessage_returns db user profile lastMessage ->
        (lastMessage = None <-> conversation_rows db user profile = [])
        /\ lastMessageTime lastMessage
           = latest_created_at (conversation_rows db user profile)).
Proof.
  assert (Hgen : forall rows lastMessage,
             lastMessage_of rows lastMessage ->
             (lastMessage = None <-> rows = [])
             /\ (forall r, lastMessage = Some r ->
                           In r rows /\ Forall (before_desc r) rows)
             /\ lastMessageTime lastMessage = latest_or_null rows).
  { intros rows lm (res & Hord & ->).
    assert (Hnone : hd_error res = None <-> rows = []).
    { destruct Hord as (Hperm & _). destruct res as [|h res]; simpl.
      - split; [|reflexivity]. intros _.
        now apply Permutation_sym, Permutation_nil in Hperm.
      - split; [discriminate|]. intros Hnil. rewrite Hnil in Hperm.
        apply Permutation_nil in Hperm. discriminate. }
    split; [exact Hnone|]. split.
    - intros r Hr. now apply (ordered_by_created_at_desc_head rows res).
    - destruct (hd_error res) as [r|] eqn:Hr.
      + destruct (ordered_by_created_at_desc_head rows res r Hord Hr)
          as (Hin & Hall).
        simpl. symmetry. now apply latest_or_null_first.
      + rewrite (proj1 Hnone eq_refl). reflexivity. }
  split.
  - intros rows. split.
    + exists (order_by_created_at_desc rows).
      split; [apply order_by_created_at_desc_ordered | reflexivity].
    + intros lm Hlm. destruct (Hgen rows lm Hlm) as (Hnone & Hsome & Htime).
      split; [exact Hnone|]. split; [exact Hsome|]. split; [exact Htime|].
      split.
      * intros Hnull. destruct lm as [r|].
        -- right. exists r. split; [apply (Hsome r eq_refl) | exact Hnull].
        -- left. now apply Hnone.
      * intros [Hnil | Hex].
        -- rewrite (proj2 Hnone Hnil). reflexivity.
        -- rewrite Htime. unfold latest_or_null.
           now rewrite (proj2 (has_null_created_at_true rows) Hex).
  - intros db user profile lm Hlm.
    destruct (Hgen _ lm Hlm) as (Hnone & _ & Htime).
    split.
    + rewrite Hnone. split.
      * intros H. now apply map_eq_nil in H.
      * intros ->. reflexivity.
    + rewrite Htime. apply latest_or_null_select.
Qed.

Lemma lastMessage_is_latest_witness :
  (forall lastMessage,
     lastMessage_of unstamped_rows lastMessage ->
     lastMessageTime lastMessage = None)
  /\ lastMessageTime
       (hd_error (order_by_created_at_desc
                    (map select_content_created_at
                       (conversation_rows chat_db 1%N 2%N))))
     = Some 30%Z.
Proof.
  split.
  - intros lm Hlm.
    apply (proj2 (proj2 (proj2 (proj2 (proj1 lastMessage_is_latest
                                          unstamped_rows) lm Hlm)))).
    right. eexists. split; [right; left; reflexivity | reflexivity].
  - apply (eq_trans
             (proj2 (proj2 lastMessage_is_latest chat_db 1%N 2%N _
                       (proj1 (proj1 lastMessage_is_latest _))))).
    reflexivity.
Defined.

(** *** Member counts *)

Lemma filter_filter_andb {A : Type} (p q : A -> bool) (l : list A) :
  filter p (filter q l) = filter (fun x => q x && p x) l.
Proof.
  induction l as [|x l IH]; simpl.
  - reflexivity.
  - destruct (q x); simpl; [destruct (p x)|]; now rewrite IH.
Qed.

Lemma filter_none {A : Type} (p : A -> bool) (l : list A) :
  (forall x, In x l -> p x = false) -> filter p l = [].
Proof.
  intros H. induction l as [|x l IH]; simpl.
  - reflexivity.
  - rewrite H by now left. apply IH. intros y Hy. apply H. now right.
Qed.

(** X10: the member count the channel list shows for a channel is the true
    number of its membership rows when the user is a member, and 0 when the
    user is not: a public channel the user has not joined is listed with no
    members, however many it has. *)
Theorem channel_member_count_members_only (db : database) (user channel : uuid) :
  channel_member_count db user channel
  = if is_channel_member db (Some channel) (Some user)
    then List.length
           (filter (fun cm => holds (sql_eq (ChannelMembers.channel_id cm)
                                            (Some channel)))
                   (channel_members db))
    else 0%nat.
Proof.
  unfold channel_member_count. rewrite filter_filter_andb.
  destruct (is_channel_member db (Some channel) (Some user)) eqn:Hm.
  - f_equal. apply filter_ext_in. intros cm Hin.
    destruct (holds (sql_eq (ChannelMembers.channel_id cm) (Some channel)))
      eqn:Hc; [|apply andb_false_r].
    rewrite andb_true_r. apply holds_sql_eq_Some_r in Hc.
    apply (proj2 (channel_members_readable_by_members_aux db user cm Hin
                    channel Hc)).
    now apply is_channel_member_iff.
  - rewrite filter_none; [reflexivity|].
    intros cm Hin.
    destruct (holds (sql_eq (ChannelMembers.channel_id cm) (Some channel)))
      eqn:Hc; [|apply andb_false_r].
    rewrite andb_true_r. apply holds_sql_eq_Some_r in Hc.
    destruct (holds (DefinitiveRest.channel_members_readable db (Some user) cm))
      eqn:Hr; [|reflexivity].
    apply (proj1 (channel_members_readable_by_members_aux db user cm Hin
                    channel Hc)) in Hr.
    apply is_channel_member_iff in Hr. congruence.
Qed.

(** *** Which conversation is open *)

Lemma app_step_one_open_at_most (st : app_state) (e : app_event) :
  one_open_at_most st -> one_open_at_most (app_step st e).
Proof.
  intros H. destruct e as [c | u | cs]; simpl.
  - now right.
  - now left.
  - unfold auto_select, one_open_at_most in *.
    destruct st as [c d]. cbn [activeChannelId activeDMUserId] in *.
    destruct cs as [|first cs]; [exact H|].
    destruct c; [exact H|].
    destruct d; [now left|].
    destruct (find _ _); right; reflexivity.
Qed.

Lemma app_run_one_open_at_most (events : list app_event) (st : app_state) :
  one_open_at_most st -> one_open_at_most (fold_left app_step events st).
Proof.
  revert st. induction events as [|e events IH]; intros st H; simpl.
  - exact H.
  - apply IH. now apply app_step_one_open_at_most.
Qed.

(** X14: whatever the user clicks and whenever the channel list arrives, the
    app never has a channel and a direct conversation open at once.  The
    row that sendMessage builds from the open conversation therefore never
    names two targets, it names exactly one as soon as something is open,
    and an insert issued from the app under the definitive policies never
    ends in the violation of check_message_target: with nothing open it is
    the policy that refuses the row. *)
Theorem app_never_opens_two_targets (events : list app_event) :
  let st := fold_left app_step events initial_app_state in
  one_open_at_most st
  /\ (forall user content default_id now,
        (has_one_target (messageData st user content default_id now) <->
         activeChannelId st <> None \/ activeDMUserId st <> None)
        /\ forall db,
             insert_message Definitive.messages_insert db (Some user)
               (messageData st user content default_id now)
             <> Error InvalidTarget).
Proof.
  cbv zeta.
  assert (H : one_open_at_most (fold_left app_step events initial_app_state)).
  { apply app_run_one_open_at_most. now left. }
  split; [exact H|].
  intros user content default_id now.
  set (st := fold_left app_step events initial_app_state) in *.
  assert (Hone : has_one_target (messageData st user content default_id now)
                 <-> activeChannelId st <> None \/ activeDMUserId st <> None).
  { unfold has_one_target. simpl.
    destruct H as [H | H]; rewrite H;
      [destruct (activeDMUserId st) | destruct (activeChannelId st)];
      intuition congruence. }
  split; [exact Hone|].
  intros db. unfold insert_message.
  destruct (holds _) eqn:Hp; [|discriminate].
  assert (Hopen : activeChannelId st <> None \/ activeDMUserId st <> None).
  { unfold Definitive.messages_insert in Hp. simpl in Hp.
    rewrite holds_sql_or, !holds_sql_and, orb_true_iff, !andb_true_iff,
      !holds_is_not_null in Hp. tauto. }
  apply Hone, check_message_target_iff in Hopen.
  unfold Append. rewrite Hopen.
  destruct (existsb _ _); simpl; [discriminate|].
  destruct (update_dm_participants _ _ _) as [dms|e] eqn:Ht; simpl;
    [discriminate|].
  unfold update_dm_participants in Ht.
  destruct (holds (is_not_null _)); [|discriminate].
  cbv zeta in Ht. destruct (holds _) in Ht; [|injection Ht as <-; discriminate].
  unfold dm_upsert in Ht.
  destruct (check_passes _) in Ht;
    [destruct (existsb _ _) in Ht; discriminate|].
  injection Ht as <-. discriminate.
Qed.

(* ================================================================== *)
(** ** MessageList: the groups                                          *)
(* ================================================================== *)

Module MessageListFacts.
Import MessageList.

Lemma split_last_snoc {A : Type} (l : list A) (x : A) :
  split_last (l ++ [x]) = Some (l, x).
Proof.
  unfold split_last. rewrite rev_app_distr. simpl. now rewrite rev_involutive.
Qed.

Lemma forEach_body_snoc (cu : option uuid) (before : list group)
    (cur : group) (m : message) :
  forEach_body cu (before ++ [cur]) m
  = if joins cur m
    then before ++ [{| user := user cur; messages := messages cur ++ [m] |}]
    else (before ++ [cur]) ++ [new_group cu m].
Proof.
  unfold forEach_body, joins. rewrite split_last_snoc. cbv zeta.
  destruct (same_id _ _); simpl; [|reflexivity].
  destruct (less_than _ _); reflexivity.
Qed.

Lemma fold_forEach_body (cu : option uuid) (rest : list message)
    (before : list group) (cur : group) :
  fold_left (forEach_body cu) rest (before ++ [cur])
  = before ++ groups_from cu cur rest.
Proof.
  revert before cur. induction rest as [|m rest IH]; intros before cur; simpl.
  - reflexivity.
  - rewrite forEach_body_snoc. destruct (joins cur m).
    + apply IH.
    + rewrite IH, <- app_assoc. reflexivity.
Qed.

Lemma groupMessagesByUser_cons (cu : option uuid) (m : message)
    (ms : list message) :
  groupMessagesByUser cu (m :: ms) = groups_from cu (new_group cu m) ms.
Proof.
  unfold groupMessagesByUser. simpl.
  change (forEach_body cu [] m) with ([] ++ [new_group cu m]).
  now rewrite fold_forEach_body.
Qed.

Lemma groups_from_concat (cu : option uuid) (rest : list message) (cur : group) :
  List.concat (map messages (groups_from cu cur rest)) = messages cur ++ rest.
Proof.
  revert cur. induction rest as [|m rest IH]; intros cur; simpl.
  - now rewrite app_nil_r.
  - destruct (joins cur m); simpl.
    + rewrite IH. simpl. now rewrite <- app_assoc.
    + now rewrite IH.
Qed.

Lemma groups_from_length (cu : option uuid) (rest : list message) (cur : group) :
  (1 <= List.length (groups_from cu cur rest) <= S (List.length rest))%nat.
Proof.
  revert cur. induction rest as [|m rest IH]; intros cur; simpl.
  - lia.
  - destruct (joins cur m); simpl.
    + specialize (IH {| user := user cur; messages := messages cur ++ [m] |}).
      lia.
    + specialize (IH (new_group cu m)). lia.
Qed.

(** X15: the groups are the messages, cut into consecutive runs: put end to end
    they give back the list that was passed in, in the same order; there
    are no groups for no messages, and never more groups than messages. *)
Theorem groupMessagesByUser_partitions (currentUser : option uuid)
    (ms : list message) :
  List.concat (map messages (groupMessagesByUser currentUser ms)) = ms
  /\ (List.length (groupMessagesByUser currentUser ms) <= List.length ms)%nat
  /\ (groupMessagesByUser currentUser ms = [] <-> ms = []).
Proof.
  destruct ms as [|m ms].
  - repeat split; auto.
  - rewrite groupMessagesByUser_cons. split; [|split].
    + now rewrite groups_from_concat.
    + pose proof (groups_from_length currentUser ms (new_group currentUser m)).
      simpl. lia.
    + pose proof (groups_from_length currentUser ms (new_group currentUser m)).
      split; [|discriminate].
      intros E. rewrite E in H. simpl in H. lia.
Qed.

Lemma same_id_eq (a b : option uuid) : same_id a b = true <-> a = b.
Proof.
  destruct a as [x|], b as [y|]; simpl; try (split; congruence).
  rewrite N.eqb_eq. split; congruence.
Qed.

Lemma less_than_minus (a b : option Z) (n : Z) :
  less_than (minus a b) n = true
  <-> exists x y, a = Some x /\ b = Some y /\ (x - y < n)%Z.
Proof.
  destruct a as [x|], b as [y|]; simpl.
  - rewrite Z.ltb_lt. split.
    + intros H. now exists x, y.
    + intros (x' & y' & [= <-] & [= <-] & H). exact H.
  - split; [discriminate | intros (? & ? & _ & H & _); discriminate].
  - split; [discriminate | intros (? & ? & H & _); discriminate].
  - split; [discriminate | intros (? & ? & H & _); discriminate].
Qed.

Lemma joins_true_iff (g : group) (m : message) :
  joins g m = true
  <-> id (user g) = Messages.user_id (row m)
      /\ soon_after (last (messages g) m) m.
Proof.
  unfold joins, soon_after.
  rewrite andb_true_iff, same_id_eq, less_than_minus.
  change (5 * 60 * 1000)%Z with 300000%Z.
  split; intros (Hid & x & y & H1 & H2 & H3); (split; [assumption|]);
    exists y, x; auto.
Qed.

Lemma timely_snoc (ms : list message) (m d : message) :
  ms <> [] ->
  timely ms ->
  soon_after (last ms d) m ->
  timely (ms ++ [m]).
Proof.
  induction ms as [|m1 ms IH]; intros Hne Ht Hlast; [contradiction|].
  destruct ms as [|m2 ms].
  - simpl in *. auto.
  - change (timely ((m1 :: m2 :: ms) ++ [m]))
      with (soon_after m1 m2 /\ timely ((m2 :: ms) ++ [m])).
    destruct Ht as (H12 & Ht). split; [assumption|].
    apply IH; [discriminate | assumption | exact Hlast].
Qed.

Lemma well_formed_new_group (cu : option uuid) (m : message) :
  well_formed cu (new_group cu m).
Proof.
  split; [|split].
  - exists m, []. auto.
  - simpl. constructor; [reflexivity | constructor].
  - exact I.
Qed.

Lemma well_formed_joined (cu : option uuid) (cur : group) (m : message) :
  well_formed cu cur ->
  joins cur m = true ->
  well_formed cu {| user := user cur; messages := messages cur ++ [m] |}.
Proof.
  intros ((m0 & ms0 & Hms & Hu) & Hids & Ht) Hj.
  apply joins_true_iff in Hj. destruct Hj as (Hid & Hdiff).
  split; [|split]; simpl.
  - exists m0, (ms0 ++ [m]). rewrite Hms. auto.
  - apply Forall_app. split; [assumption|]. constructor; [now symmetry|].
    constructor.
  - apply (timely_snoc _ _ m); [rewrite Hms; discriminate | assumption|].
    exact Hdiff.
Qed.

Lemma groups_from_well_formed (cu : option uuid) (rest : list message)
    (cur : group) :
  well_formed cu cur -> Forall (well_formed cu) (groups_from cu cur rest).
Proof.
  revert cur. induction rest as [|m rest IH]; intros cur Hwf; simpl.
  - now constructor.
  - destruct (joins cur m) eqn:Hj.
    + apply IH. now apply well_formed_joined.
    + constructor; [assumption|]. apply IH. apply well_formed_new_group.
Qed.

(** X16: every group has a first message and shows the user made from it (id,
    name, avatar, and whether that is the viewer); all its messages are by
    that user, and each of them was sent less than five minutes after the
    one before it. *)
Theorem groupMessagesByUser_groups_well_formed (currentUser : option uuid)
    (ms : list message) :
  Forall (well_formed currentUser) (groupMessagesByUser currentUser ms).
Proof.
  destruct ms as [|m ms].
  - constructor.
  - rewrite groupMessagesByUser_cons.
    apply groups_from_well_formed, well_formed_new_group.
Qed.






End MessageListFacts.
(* ================================================================== *)
(** ** Signing up                                                       *)
(* ================================================================== *)

Lemma fold_insert_member_In (rows tbl : list ChannelMembers.row)
    (cm : ChannelMembers.row) :
  In cm (fold_left insert_member_do_nothing rows tbl) ->
  In cm tbl \/ In cm rows.
Proof.
  revert tbl. induction rows as [|r rows IH]; intros tbl; simpl.
  - auto.
  - intros H. apply IH in H. destruct H as [H | H]; [|auto].
    unfold insert_member_do_nothing in H.
    destruct (existsb _ tbl); [auto|].
    apply in_app_or in H. destruct H as [H | [<- | []]]; auto.
Qed.

(** X18: the sign-up trigger goes through only when schema public is in the
    search path it runs under, and under the empty path that the hardening
    migration gives the function it never does: whatever the new user's
    data, the statement fails and everything stays as it was, with an
    undefined-table error for channel_members once the profile itself is
    acceptable.  Where it does go through, it stores the profile (named
    after the metadata or else the e-mail address, status offline) and
    enrols the new user in every channel that is public at that moment, so
    that the user can at once view those channels and view and post their
    messages; it adds no other membership, and it touches neither channels
    nor messages. *)
Theorem signup_needs_public_in_search_path (s : server) (new_id : uuid)
    (meta_full_name meta_avatar_url new_email : option string) :
  (forall search_path s',
     handle_new_user search_path s new_id meta_full_name meta_avatar_url
       new_email = Done s' ->
     resolves search_path = true
     /\ (exists n, COALESCE meta_full_name new_email = Some n
                   /\ profiles s'
                      = profiles s ++ [{| Profiles.id := new_id;
                                          Profiles.full_name := n;
                                          Profiles.avatar_url := meta_avatar_url;
                                          Profiles.status := Some offline |}])
     /\ (forall c, In c (channels (data s)) ->
                   Channels.is_private c = Some false ->
                   CanViewChannel (data s') new_id c = true
                   /\ forall m, Messages.channel_id m = Some (Channels.id c) ->
                                Messages.recipient_id m = None ->
                                CanViewMessage (data s') new_id m = true
                                /\ CanPostMessage (data s') new_id m = true)
     /\ (forall c u, has_membership (data s') c u ->
                     has_membership (data s) c u
                     \/ (u = new_id
                         /\ exists ch, In ch (channels (data s))
                                       /\ Channels.id ch = c
                                       /\ Channels.is_private ch = Some false))
     /\ channels (data s') = channels (data s)
     /\ messages (data s') = messages (data s))
  /\ (forall search_path,
        resolves search_path = false ->
        (exists e, handle_new_user search_path s new_id meta_full_name
                     meta_avatar_url new_email = Failed e)
        /\ settle s (handle_new_user search_path s new_id meta_full_name
                       meta_avatar_url new_email) = s)
  /\ (exists e, handle_new_user hardened s new_id meta_full_name
                  meta_avatar_url new_email = Failed e)
  /\ (COALESCE meta_full_name new_email <> None ->
      existsb (fun p => N.eqb (Profiles.id p) new_id) (profiles s) = false ->
      handle_new_user hardened s new_id meta_full_name meta_avatar_url
        new_email = Failed (undefined_table "channel_members")).
Proof.
  assert (Hfail : forall search_path,
             resolves search_path = false ->
             (exists e, handle_new_user search_path s new_id meta_full_name
                          meta_avatar_url new_email = Failed e)
             /\ settle s (handle_new_user search_path s new_id meta_full_name
                            meta_avatar_url new_email) = s).
  { intros search_path Hres. unfold handle_new_user. rewrite Hres.
    destruct (COALESCE meta_full_name new_email); [|split; eauto].
    destruct (existsb _ (profiles s)); split; eauto. }
  split; [|split; [exact Hfail|split; [apply (Hfail hardened eq_refl)|]]].
  - intros search_path s'. unfold handle_new_user.
    destruct (COALESCE meta_full_name new_email) as [n|]; [|discriminate].
    destruct (existsb _ (profiles s)); [discriminate|].
    destruct (resolves search_path); [|discriminate].
    intros [= <-]. cbn [profiles data].
    split; [reflexivity|].
    split; [eauto|]. split; [|split; [|split; reflexivity]].
    + intros c Hin Hpub.
      assert (Hm : is_channel_member (auto_join_public_channels (data s) new_id)
                     (Some (Channels.id c)) (Some new_id) = true).
      { apply is_channel_member_iff.
        apply (has_membership_conflict _ _ _ (Some member)).
        unfold auto_join_public_channels. cbn [channel_members].
        apply fold_insert_member_all_conflict.
        - apply auto_join_rows_keyed.
        - apply auto_join_rows_In. eauto. }
      split.
      * apply CanViewChannel_iff. now left.
      * intros m Hc Hr. split.
        -- unfold CanViewMessage. now rewrite messages_select_channel, Hc.
        -- unfold CanPostMessage, Definitive.messages_insert.
           now rewrite Hc, holds_sql_or, holds_sql_and, holds_Some, Hm.
    + intros c u (cm & Hin & Hc & Hu).
      unfold auto_join_public_channels in Hin. cbn [channel_members] in Hin.
      apply fold_insert_member_In in Hin. destruct Hin as [Hin | Hin].
      * left. exists cm. auto.
      * right. apply auto_join_rows_In in Hin.
        destruct Hin as (ch & Hch & Hpub & ->). simpl in Hc, Hu.
        split; [congruence|]. exists ch. split; [assumption|].
        split; [congruence | assumption].
  - intros Hname Hfresh. unfold handle_new_user.
    destruct (COALESCE meta_full_name new_email); [|congruence].
    now rewrite Hfresh.
Qed.

Lemma signup_needs_public_in_search_path_witness :
  handle_new_user hardened {| profiles := []; data := general_db |} 5 None None
    (Some "new@company.com"%string)
  = Failed (undefined_table "channel_members")
  /\ exists s',
       handle_new_user ["public"%string]
         {| profiles := []; data := general_db |} 5 None None
         (Some "new@company.com"%string) = Done s'
       /\ CanViewMessage general_db 5 (channel_message 100 2 7 10) = false
       /\ CanViewMessage (data s') 5 (channel_message 100 2 7 10) = true.
Proof.
  split.
  - apply (proj2 (proj2 (proj2
             (signup_needs_public_in_search_path
                {| profiles := []; data := general_db |} 5 None None
                (Some "new@company.com"%string)))));
      [discriminate | reflexivity].
  - eexists. split; [reflexivity|]. split; [reflexivity|].
    refine (proj1 (proj2 (proj1 (proj2 (proj2
              (proj1 (signup_needs_public_in_search_path
                        {| profiles := []; data := general_db |} 5 None None
                        (Some "new@company.com"%string))
                 ["public"%string] _ eq_refl)))
              general_channel _ _) (channel_message 100 2 7 10) _ _)).
    + simpl. auto.
    + reflexivity.
    + reflexivity.
    + reflexivity.
Defined.
(* ================================================================== *)
(** ** The seed channels                                                *)
(* ================================================================== *)

Lemma insert_channel_on_conflict_name_Ok (tbl tbl' : list Channels.row)
    (r : Channels.row) :
  insert_channel_on_conflict_name tbl r = Ok tbl' ->
  (exists added, tbl' = tbl ++ added)
  /\ In (Channels.name r) (map Channels.name tbl')
  /\ (NoDup (map Channels.name tbl) -> NoDup (map Channels.name tbl'))
  /\ (NoDup (map Channels.id tbl) -> NoDup (map Channels.id tbl')).
Proof.
  unfold insert_channel_on_conflict_name.
  destruct (existsb (fun x => String.eqb _ _) tbl) eqn:En.
  - intros [= <-]. split; [exists []; now rewrite app_nil_r|].
    split; [|auto].
    apply existsb_exists in En. destruct En as (x & Hin & Hx).
    apply String.eqb_eq in Hx. rewrite <- Hx. now apply in_map.
  - destruct (existsb (fun x => N.eqb _ _) tbl) eqn:Ei; [discriminate|].
    intros [= <-]. split; [eauto|]. rewrite !map_app. simpl.
    split; [apply in_or_app; right; now left|].
    split; intros Hnd;
      (eapply Permutation_NoDup; [apply Permutation_cons_append|]);
      (constructor; [|assumption]); intros Hin;
      apply in_map_iff in Hin; destruct Hin as (x & Hx & Hin).
    + assert (existsb (fun x => String.eqb (Channels.name x) (Channels.name r))
                      tbl = true).
      { apply existsb_exists. exists x. split; [assumption|].
        now apply String.eqb_eq. }
      congruence.
    + assert (existsb (fun x => N.eqb (Channels.id x) (Channels.id r))
                      tbl = true).
      { apply existsb_exists. exists x. split; [assumption|].
        now apply N.eqb_eq. }
      congruence.
Qed.

Lemma insert_channels_on_conflict_name_Ok (rows tbl tbl' : list Channels.row) :
  insert_channels_on_conflict_name tbl rows = Ok tbl' ->
  (exists added, tbl' = tbl ++ added)
  /\ (forall r, In r rows -> In (Channels.name r) (map Channels.name tbl'))
  /\ (NoDup (map Channels.name tbl) -> NoDup (map Channels.name tbl'))
  /\ (NoDup (map Channels.id tbl) -> NoDup (map Channels.id tbl')).
Proof.
  revert tbl. induction rows as [|r rows IH]; intros tbl; simpl.
  - intros [= <-]. split; [exists []; now rewrite app_nil_r|].
    split; [intros r []|auto].
  - destruct (insert_channel_on_conflict_name tbl r) as [t1|e] eqn:E1;
      [|discriminate].
    simpl. intros H. apply IH in H.
    apply insert_channel_on_conflict_name_Ok in E1.
    destruct E1 as ((a1 & ->) & Hr & Hn1 & Hi1).
    destruct H as ((a2 & ->) & Hrows & Hn2 & Hi2).
    split; [exists (a1 ++ a2); now rewrite app_assoc|].
    split; [|auto].
    intros r' [<- | Hin]; [|now apply Hrows].
    rewrite map_app. apply in_or_app. now left.
Qed.

Lemma insert_channels_on_conflict_name_noop (rows tbl : list Channels.row) :
  (forall r, In r rows -> In (Channels.name r) (map Channels.name tbl)) ->
  insert_channels_on_conflict_name tbl rows = Ok tbl.
Proof.
  induction rows as [|r rows IH]; intros H; simpl.
  - reflexivity.
  - unfold insert_channel_on_conflict_name.
    replace (existsb (fun x => String.eqb (Channels.name x) (Channels.name r))
                     tbl) with true.
    + simpl. apply IH. intros r' Hr'. apply H. now right.
    + symmetry. apply existsb_exists.
      specialize (H r (or_introl eq_refl)). apply in_map_iff in H.
      destruct H as (x & Hx & Hin). exists x. split; [assumption|].
      now apply String.eqb_eq.
Qed.

(** X19: seeding the default channels only appends rows; it keeps channel
    names and channel ids distinct; afterwards "general", "random" and
    "development" exist; a database that already has the three names (the
    initial schema creates them) keeps its own rows and ids and gets
    nothing new; and seeding twice is seeding once. *)
Theorem seed_default_channels_idempotent (tbl tbl' : list Channels.row) :
  seed_default_channels tbl = Ok tbl' ->
  (exists added, tbl' = tbl ++ added)
  /\ (NoDup (map Channels.name tbl) -> NoDup (map Channels.name tbl'))
  /\ (NoDup (map Channels.id tbl) -> NoDup (map Channels.id tbl'))
  /\ (forall n, In n ["general"; "random"; "development"]%string ->
                In n (map Channels.name tbl'))
  /\ ((forall n, In n ["general"; "random"; "development"]%string ->
                 In n (map Channels.name tbl)) -> tbl' = tbl)
  /\ seed_default_channels tbl' = Ok tbl'.
Proof.
  unfold seed_default_channels. intros H.
  pose proof (insert_channels_on_conflict_name_Ok _ _ _ H)
    as (Happ & Hnames & Hn & Hi).
  split; [exact Happ|]. split; [exact Hn|]. split; [exact Hi|].
  assert (Hseed : forall n, In n ["general"; "random"; "development"]%string ->
                    exists r, In r seed_rows /\ Channels.name r = n).
  { intros n Hn'. simpl in Hn'.
    destruct Hn' as [<- | [<- | [<- | []]]];
      [exists (nth 0 seed_rows general_channel)
      |exists (nth 1 seed_rows general_channel)
      |exists (nth 2 seed_rows general_channel)];
      split; simpl; auto. }
  assert (Hrev : forall r, In r seed_rows ->
                   In (Channels.name r)
                      ["general"; "random"; "development"]%string).
  { intros r Hr. simpl in Hr.
    destruct Hr as [<- | [<- | [<- | []]]]; simpl; auto. }
  split; [|split].
  - intros n Hn'. destruct (Hseed n Hn') as (r & Hr & <-). now apply Hnames.
  - intros Hall.
    rewrite insert_channels_on_conflict_name_noop in H.
    + now injection H.
    + intros r Hr. apply Hall. now apply Hrev.
  - apply insert_channels_on_conflict_name_noop. exact Hnames.
Qed.

Lemma seed_default_channels_idempotent_witness :
  seed_default_channels [general_channel] <> Error (unique_violation "channels_pkey")
  /\ forall tbl', seed_default_channels [general_channel] = Ok tbl' ->
       seed_default_channels tbl' = Ok tbl'
       /\ In "random"%string (map Channels.name tbl')
       /\ hd_error tbl' = Some general_channel.
Proof.
  split; [discriminate|].
  intros tbl' H.
  destruct (seed_default_channels_idempotent [general_channel] tbl' H)
    as ((added & Happ) & _ & _ & Hnames & _ & Hidem).
  split; [exact Hidem|]. split.
  - apply Hnames. simpl. auto.
  - rewrite Happ. reflexivity.
Defined.

(** A free name with a taken id is the one way the seed fails: the whole
    INSERT is aborted by the primary key. *)
Lemma seed_default_channels_pkey_clash :
  seed_default_channels
    [{| Channels.id := 0x550e8400e29b41d4a716446655440002;
        Channels.name := "lounge";
        Channels.is_private := Some false; Channels.created_by := None |}]
  = Error (unique_violation "channels_pkey").
Proof. reflexivity. Qed.

(* ================================================================== *)
(** ** The channel view and the profile list                            *)
(* ================================================================== *)

(** X11: what the message hook loads for a channel: all the stored messages of
    that channel when the user has a membership row for it, and nothing at
    all when the user has none - also for a public channel, which the user
    can see in the channel list. *)
Theorem channel_fetch_members_only (db : database) (u c : uuid)
    (recipientId : option uuid) :
  Forall has_one_target (messages db) ->
  fetchMessages_rows db u (Some c) recipientId
  = if is_channel_member db (Some c) (Some u)
    then filter (fun m => holds (sql_eq (Messages.channel_id m) (Some c)))
                (messages db)
    else [].
Proof.
  intros Hone. rewrite Forall_forall in Hone.
  unfold fetchMessages_rows, visible_messages. rewrite filter_filter_andb.
  cbn [fetchMessages_where].
  assert (Hsel : forall m, In m (messages db) ->
            holds (sql_eq (Messages.channel_id m) (Some c)) = true ->
            holds (Definitive.messages_select db (Some u) m)
            = is_channel_member db (Some c) (Some u)).
  { intros m Hin Hc. apply holds_sql_eq_Some_r in Hc.
    rewrite messages_select_channel, Hc; [reflexivity|].
    destruct (Hone m Hin) as [(_ & Hr) | (Hn & _)]; [assumption | congruence]. }
  destruct (is_channel_member db (Some c) (Some u)) eqn:Hm.
  - apply filter_ext_in. intros m Hin.
    destruct (holds (sql_eq (Messages.channel_id m) (Some c))) eqn:Hc;
      [|apply andb_false_r].
    now rewrite (Hsel m Hin Hc).
  - apply filter_none. intros m Hin.
    destruct (holds (sql_eq (Messages.channel_id m) (Some c))) eqn:Hc;
      [|apply andb_false_r].
    now rewrite (Hsel m Hin Hc).
Qed.

Lemma channel_fetch_members_only_witness :
  fetchMessages_rows general_db 3 (Some 7%N) None = []
  /\ fetchMessages_rows general_db 2 (Some 7%N) None
     = [channel_message 100 2 7 10].
Proof.
  assert (H : Forall has_one_target (messages general_db)).
  { apply Forall_cons; [|apply Forall_nil].
    left. simpl. split; congruence. }
  split.
  - exact (channel_fetch_members_only general_db 3 7 None H).
  - exact (channel_fetch_members_only general_db 2 7 None H).
Defined.

(** X22: a live profile update touches the entry of the updated user and no
    other: the list keeps its length, its ids and their order; entries of
    other users stay as they are; an update for a user who is not listed
    changes nothing; and delivering the same update again changes nothing
    more. *)
Theorem on_profile_update_only_that_user (payload_new : Profiles.row)
    (prev : list Profiles.row) :
  map Profiles.id (on_profile_update payload_new prev) = map Profiles.id prev
  /\ (forall p, In p (on_profile_update payload_new prev) ->
                p = payload_new
                \/ (In p prev /\ Profiles.id p <> Profiles.id payload_new))
  /\ (forall p, In p prev -> Profiles.id p <> Profiles.id payload_new ->
                In p (on_profile_update payload_new prev))
  /\ ((forall p, In p prev -> Profiles.id p <> Profiles.id payload_new) ->
      on_profile_update payload_new prev = prev)
  /\ on_profile_update payload_new (on_profile_update payload_new prev)
     = on_profile_update payload_new prev.
Proof.
  unfold on_profile_update. repeat split.
  - rewrite map_map. apply map_ext. intros p.
    destruct (N.eqb_spec (Profiles.id p) (Profiles.id payload_new));
      congruence.
  - intros p Hin. apply in_map_iff in Hin. destruct Hin as (q & <- & Hq).
    destruct (N.eqb_spec (Profiles.id q) (Profiles.id payload_new));
      [now left | right; auto].
  - intros p Hin Hne. apply in_map_iff. exists p. split; [|assumption].
    apply N.eqb_neq in Hne. now rewrite Hne.
  - intros Hnone. rewrite <- (map_id prev) at 2. apply map_ext_in.
    intros p Hin. specialize (Hnone p Hin). apply N.eqb_neq in Hnone.
    now rewrite Hnone.
  - rewrite map_map. apply map_ext. intros p.
    destruct (N.eqb_spec (Profiles.id p) (Profiles.id payload_new)) as [E|E].
    + now rewrite N.eqb_refl.
    + apply N.eqb_neq in E. now rewrite E.
Qed.

Lemma on_profile_update_only_that_user_witness :
  let u2 := {| Profiles.id := 2; Profiles.full_name := "Mike Chen";
               Profiles.avatar_url := None; Profiles.status := Some away |} in
  let u3 := {| Profiles.id := 3; Profiles.full_name := "Emily Davis";
               Profiles.avatar_url := None; Profiles.status := Some online |} in
  let u9 := {| Profiles.id := 9; Profiles.full_name := "Nobody";
               Profiles.avatar_url := None; Profiles.status := Some online |} in
  In u3 (on_profile_update
           {| Profiles.id := 2; Profiles.full_name := "Mike Chen";
              Profiles.avatar_url := None; Profiles.status := Some online |}
           [u2; u3])
  /\ on_profile_update u9 [u2; u3] = [u2; u3].
Proof.
  cbv zeta. split.
  - apply (proj1 (proj2 (proj2 (on_profile_update_only_that_user _ _)))).
    + simpl. auto.
    + discriminate.
  - apply (proj1 (proj2 (proj2 (proj2 (on_profile_update_only_that_user _ _))))).
    intros p Hin. simpl in Hin.
    destruct Hin as [<- | [<- | []]]; discriminate.
Defined.

(* ================================================================== *)
(** ** The message policies of the recursion fix                        *)
(* ================================================================== *)

Lemma can_access_channel_of_member (db : database) (c : option uuid) (u : uuid) :
  is_channel_member db c (Some u) = true ->
  can_access_channel db c (Some u) = true.
Proof.
  intros H. unfold can_access_channel. rewrite H. now destruct (holds _).
Qed.

(** X23: under the policies of the recursion fix a message of a channel is
    visible, and insertable whoever its author is, exactly when
    can_access_channel lets the user into the channel, so a public channel
    needs no membership; a message without a channel is visible to its
    author and its recipient and insertable by its author only.  Whatever
    the definitive policy shows of a row with one target, these policies
    show too.  And a row with no target at all, sent in one's own name,
    passes the INSERT policy, so that it is the table's check_message_target
    that refuses it. *)
Theorem RecursionFix_message_policies (db : database) (u : uuid)
    (m : Messages.row) :
  (forall c, Messages.channel_id m = Some c ->
     holds (RecursionFix.messages_select db (Some u) m)
     = can_access_channel db (Some c) (Some u)
     /\ holds (RecursionFix.messages_insert db (Some u) m)
        = can_access_channel db (Some c) (Some u))
  /\ (Messages.channel_id m = None ->
      (holds (RecursionFix.messages_select db (Some u) m) = true <->
       Messages.user_id m = Some u \/ Messages.recipient_id m = Some u)
      /\ (holds (RecursionFix.messages_insert db (Some u) m) = true <->
          Messages.user_id m = Some u))
  /\ (has_one_target m ->
      holds (Definitive.messages_select db (Some u) m) = true ->
      holds (RecursionFix.messages_select db (Some u) m) = true)
  /\ (Messages.channel_id m = None -> Messages.recipient_id m = None ->
      Messages.user_id m = Some u ->
      insert_message RecursionFix.messages_insert db (Some u) m
      = Error InvalidTarget).
Proof.
  assert (Hdm : Messages.channel_id m = None ->
            (holds (RecursionFix.messages_select db (Some u) m) = true <->
             Messages.user_id m = Some u \/ Messages.recipient_id m = Some u)
            /\ (holds (RecursionFix.messages_insert db (Some u) m) = true <->
                Messages.user_id m = Some u)).
  { intros Hc.
    unfold RecursionFix.messages_select, RecursionFix.messages_insert.
    rewrite Hc, !holds_sql_or, !holds_sql_and, holds_sql_or.
    cbn [is_not_null is_null holds andb orb].
    now rewrite orb_true_iff, !holds_sql_eq_Some_l. }
  assert (Hch : forall c, Messages.channel_id m = Some c ->
            holds (RecursionFix.messages_select db (Some u) m)
            = can_access_channel db (Some c) (Some u)
            /\ holds (RecursionFix.messages_insert db (Some u) m)
               = can_access_channel db (Some c) (Some u)).
  { intros c Hc.
    unfold RecursionFix.messages_select, RecursionFix.messages_insert.
    rewrite Hc, !holds_sql_or, !holds_sql_and, !holds_Some.
    cbn [is_not_null is_null holds andb]. now rewrite !orb_false_r. }
  split; [exact Hch|]. split; [exact Hdm|]. split.
  - intros Hone Hdef.
    destruct Hone as [(Hc & Hr) | (Hc & Hr)].
    + destruct (Messages.channel_id m) as [c|] eqn:Ec; [|contradiction].
      rewrite (proj1 (Hch c eq_refl)).
      apply can_access_channel_of_member.
      now rewrite messages_select_channel, Ec in Hdef.
    + apply (proj1 (Hdm Hc)).
      apply messages_select_direct in Hdef; [|assumption]. tauto.
  - intros Hc Hr Hu. unfold insert_message.
    rewrite (proj2 (proj2 (Hdm Hc)) Hu).
    rewrite Append_invalid; [reflexivity|].
    intros [(Hn & _) | (_ & Hn)]; contradiction.
Qed.

Lemma RecursionFix_message_policies_witness :
  holds (RecursionFix.messages_select general_db (Some 3%N)
           (channel_message 100 2 7 10)) = true
  /\ holds (Definitive.messages_select general_db (Some 3%N)
              (channel_message 100 2 7 10)) = false
  /\ insert_message RecursionFix.messages_insert general_db (Some 3%N)
       {| Messages.id := 103; Messages.content := "neither";
          Messages.user_id := Some 3%N; Messages.channel_id := None;
          Messages.recipient_id := None; Messages.created_at := 30 |}
     = Error InvalidTarget.
Proof.
  split; [|split].
  - exact (eq_trans
             (proj1 (proj1 (RecursionFix_message_policies general_db 3
                              (channel_message 100 2 7 10)) 7%N eq_refl))
             eq_refl).
  - reflexivity.
  - apply (proj2 (proj2 (proj2 (RecursionFix_message_policies general_db 3 _))));
      reflexivity.
Defined.

(* ================================================================== *)
(** ** The conversations the profiles hook leaves behind                *)
(* ================================================================== *)

Lemma existingDM_Some (uid : option uuid) (dms : list DmParticipants.row)
    (user profile : uuid) (r : DmParticipants.row) :
  existingDM uid dms user profile = Some r ->
  In r dms /\ is_pair_row user profile r = true.
Proof.
  unfold existingDM.
  set (matching := filter _ (filter _ dms)).
  intros H.
  assert (Hin : In r matching).
  { destruct matching as [|x [|y l]]; try discriminate.
    injection H as ->. now left. }
  subst matching. apply filter_In in Hin. destruct Hin as (Hin & Hm).
  apply filter_In in Hin. destruct Hin as (Hin & _).
  split; [assumption|].
  unfold is_pair_row. now rewrite holds_sql_or in Hm.
Qed.

Lemma create_dm_conversation_ensures (dms : list DmParticipants.row)
    (user profile : uuid) (now : timestamptz) :
  user <> profile ->
  exists r, In r (create_dm_conversation dms user profile now)
            /\ is_pair_row user profile r = true.
Proof.
  intros Hne. unfold create_dm_conversation.
  destruct (existingDM _ _ _ _) as [r|] eqn:E.
  - apply existingDM_Some in E. eauto.
  - unfold dm_insert, Definitive.dm_participants_all, check_different_users,
      sql_neq.
    cbn [DmParticipants.user1_id DmParticipants.user2_id sql_eq sql_not
         option_map sql_or holds check_passes].
    rewrite N.eqb_refl. cbn [sql_or holds].
    apply N.eqb_neq in Hne. rewrite Hne. cbn [negb check_passes].
    destruct (existsb _ dms) eqn:Hex; cbn [commit].
    + apply existsb_exists in Hex. destruct Hex as (x & Hin & Hx).
      exists x. split; [assumption|].
      apply (dm_conflict_conversation user profile now) in Hx.
      apply is_pair_row_iff. now left.
    + eexists. split; [apply in_or_app; right; now left|].
      apply is_pair_row_iff. left. simpl. auto.
Qed.

Lemma filter_shorter {A : Type} (p : A -> bool) (l : list A) :
  (List.length (filter p l) <= List.length l)%nat.
Proof.
  induction l as [|x l IH]; simpl; [lia|].
  destruct (p x); simpl; lia.
Qed.

Lemma create_dm_conversation_adds_at_most_one (dms : list DmParticipants.row)
    (user profile : uuid) (now : timestamptz) :
  exists added,
    create_dm_conversation dms user profile now = dms ++ added
    /\ (List.length added <= 1)%nat.
Proof.
  unfold create_dm_conversation, dm_insert.
  destruct (existingDM _ _ _ _);
    [exists []; rewrite app_nil_r; simpl; auto|].
  destruct (holds _); [|exists []; rewrite app_nil_r; simpl; auto].
  destruct (check_passes _); [|exists []; rewrite app_nil_r; simpl; auto].
  destruct (existsb _ _); [exists []; rewrite app_nil_r; simpl; auto|].
  simpl. eexists. split; [reflexivity|]. simpl. auto.
Qed.

Lemma fold_create_dm_conversation (user : uuid) (now : timestamptz)
    (ps : list uuid) (dms : list DmParticipants.row) :
  Forall (fun p => p <> user) ps ->
  (forall p, In p ps ->
     exists r, In r (fold_left
                       (fun d profile => create_dm_conversation d user profile now)
                       ps dms)
               /\ is_pair_row user p r = true)
  /\ exists added,
       fold_left (fun d profile => create_dm_conversation d user profile now)
                 ps dms
       = dms ++ added
       /\ (List.length added <= List.length ps)%nat.
Proof.
  revert dms. induction ps as [|p ps IH]; intros dms Hall.
  - split; [intros p []|]. exists []. simpl. now rewrite app_nil_r.
  - inversion Hall as [|? ? Hp Hall']; subst. simpl.
    destruct (IH (create_dm_conversation dms user p now) Hall')
      as (Hens & added & Hadd & Hlen).
    split.
    + intros q [<- | Hq]; [|now apply Hens].
      destruct (create_dm_conversation_ensures dms user p now)
        as (r & Hin & Hr); [congruence|].
      exists r. split; [|assumption].
      rewrite Hadd. apply in_or_app. now left.
    + destruct (create_dm_conversation_adds_at_most_one dms user p now)
        as (a1 & Ha1 & Hl1).
      exists (a1 ++ added). rewrite Hadd, Ha1, <- app_assoc.
      split; [reflexivity|]. rewrite length_app. lia.
Qed.

(** X24: once the profiles hook has run for a user, every other listed
    profile has a conversation row with that user, in one order or the
    other; rows that were there are kept, and at most one row per listed
    profile is added. *)
Theorem fetchProfiles_leaves_a_conversation_each (dms : list DmParticipants.row)
    (user : uuid) (profiles : list uuid) (now : timestamptz) :
  let dms' := fetchProfiles_conversations dms user profiles now in
  (forall p, In p profiles -> p <> user ->
             exists r, In r dms' /\ is_pair_row user p r = true)
  /\ (exists added, dms' = dms ++ added
                    /\ (List.length added <= List.length profiles)%nat).
Proof.
  cbv zeta. unfold fetchProfiles_conversations.
  assert (Hothers : Forall (fun p => p <> user)
                      (filter (fun p => negb (N.eqb p user)) profiles)).
  { apply Forall_forall. intros p Hin. apply filter_In in Hin.
    destruct Hin as (_ & Hp). apply negb_true_iff in Hp.
    now apply N.eqb_neq. }
  destruct (fold_create_dm_conversation user now _ dms Hothers)
    as (Hens & added & Hadd & Hlen).
  split.
  - intros p Hin Hne. apply Hens. apply filter_In. split; [assumption|].
    apply negb_true_iff. now apply N.eqb_neq.
  - exists added. split; [assumption|].
    eapply Nat.le_trans; [exact Hlen | apply filter_shorter].
Qed.

Lemma fetchProfiles_leaves_a_conversation_each_witness :
  exists r, In r (fetchProfiles_conversations [conversation 1 2 40] 2
                    [1%N; 2%N; 3%N] 100)
            /\ is_pair_row 2 3 r = true.
Proof.
  apply (proj1 (fetchProfiles_leaves_a_conversation_each
                  [conversation 1 2 40] 2 [1%N; 2%N; 3%N] 100)).
  - simpl. auto.
  - discriminate.
Defined.

